(** * inferas: the retrying fetch, the printable-string scanner, the file
    digest, the process inspector and the HTML injector

    A shallow embedding of [inferas/web.py] (classes [scraper] and
    [injection]) and of [inferas/re.py] (class [re], shipped inside
    [test/core_test.py]).  Python integers are [Z], byte strings are
    [list byte], text is [string], a raised exception is the left
    injection of a sum, dictionaries are [gmap string pyval]. *)

From Stdlib Require Import ZArith List Lia QArith.
From Stdlib.Strings Require Import String Ascii Byte.
From Stdlib Require Import DecimalString.
From stdpp Require Import gmap strings list.
From Equations Require Import Equations.
Import ListNotations.

Set Warnings "-register-all".

Local Open Scope string_scope.
Local Open Scope list_scope.
Local Open Scope Z_scope.

(** ** Exceptions and results *)

(** The exception classes the two files raise themselves or let through
    from [requests], [bs4], [psutil] and the operating system. *)
Inductive exn : Type :=
| RequestException (msg : string)      (* requests.get: connection, timeout *)
| HTTPError (status_code : Z)          (* Response.raise_for_status *)
| ParserRejectedMarkup (msg : string)  (* bs4 with html.parser *)
| RuntimeError (msg : string)
| ValueError (msg : string)
| TypeError (msg : string)
| AttributeError (msg : string)
| FileNotFoundError (path : string)
| PermissionError (path : string)
| NoSuchProcess (pid : Z)              (* psutil *)
| AccessDenied (what : string)         (* psutil *)
| OverflowError (msg : string)
| MemoryError (msg : string)
| SelectorSyntaxError (msg : string).  (* soupsieve, behind soup.select *)

(** [inl e] is "raise e", [inr v] is "return v". *)
Definition result (A : Type) : Type := (exn + A)%type.

Definition raise {A : Type} (e : exn) : result A := inl e.
Definition ret {A : Type} (v : A) : result A := inr v.

Definition bind {A B : Type} (m : result A) (k : A -> result B) : result B :=
  match m with
  | inl e => inl e
  | inr v => k v
  end.

(** Python values that end up in the dictionaries the module returns.
    Floats are carried as opaque rationals: nothing computes with them. *)
Inductive pyval : Type :=
| PNone
| PBool (b : bool)
| PInt (z : Z)
| PFloat (q : Q)
| PStr (s : string)
| PList (l : list pyval)
| PDict (d : list (string * pyval)).

(** [len(x)] as a Python integer. *)
Definition len {A : Type} (l : list A) : Z := Z.of_nat (length l).

(** [str(n)] for an integer. *)
Definition str_of_Z (z : Z) : string := NilZero.string_of_int (Z.to_int z).

(** ** inferas/re.py *)

Module re.

(** *** The file system seen by [open], [os.stat] and [os.path] *)

Record stat_result := {
  st_size : Z;
  st_mtime : Q;
  st_ctime : Q;
  st_mode : Z
}.

Record filesystem := {
  (* [open(path, "rb")]: the bytes of the file, or the error [open] raises *)
  open_rb : string -> result (list byte);
  (* [os.stat(path)] *)
  os_stat : string -> result stat_result;
  (* [os.path.abspath(path)] *)
  abspath : string -> string;
  (* the size of the largest buffer a [read(n)] can still obtain *)
  max_buffer : Z;
  (* what [read(n)] raises for a buffer it cannot obtain: [MemoryError],
     or the [OverflowError] of the [bytes] constructor for a size next to
     [sys.maxsize] *)
  no_buffer : Z -> exn
}.

(** [sys.maxsize] on a 64-bit interpreter: the largest size and index. *)
Definition maxsize : Z := 2 ^ 63 - 1.

(** [read(n)] obtains a buffer of [n] bytes before it reads.  Buffers of
    up to 64 KiB are taken to be there, as is the memory for everything
    else the module builds; above that the limit is the environment's, and
    it is at most [sys.maxsize]. *)
Definition buffer_limit (fs : filesystem) : Z :=
  Z.min maxsize (Z.max 65536 (max_buffer fs)).

(** [fh.read(n)] on a binary file object positioned before [rest]: the
    bytes returned and the bytes left, or the exception raised.  The
    argument is first converted to a size, which fails outside
    [-sys.maxsize - 1 .. sys.maxsize]; [-1] reads to the end; any other
    negative [n] is refused. *)
Definition fh_read (fs : filesystem) (n : Z) (rest : list byte)
    : result (list byte * list byte) :=
  if (n <? - maxsize - 1) || (maxsize <? n)
  then raise (OverflowError "cannot fit 'int' into an index-sized integer")
  else if n <? -1 then raise (ValueError "read length must be non-negative or -1")
  else if n =? -1 then ret (rest, [])
  else if buffer_limit fs <? n then raise (no_buffer fs n)
  else ret (take (Z.to_nat n) rest, drop (Z.to_nat n) rest).

(** *** StringScanner: [_extract_strings] *)

(** [" " <= c <= "~"] for [c = chr(b)]. *)
Definition is_printable (b : byte) : bool :=
  let n := Z.of_N (Byte.to_N b) in (32 <=? n) && (n <=? 126).

(** ["".join(printable)] where [printable] holds [chr(b)] for each byte. *)
Definition join (printable : list byte) : string := string_of_list_byte printable.

(** The [for b in data] loop.  The state is the pair of local variables
    [(results, printable)]; on [break] the loop returns at once, leaving
    [printable] as it was. *)
Fixpoint scan_loop (min_len max_results : Z) (data : list byte)
    (results : list string) (printable : list byte) : list string * list byte :=
  match data with
  | [] => (results, printable)
  | b :: data' =>
      if is_printable b then
        scan_loop min_len max_results data' results (printable ++ [b])
      else if len printable >=? min_len then
        let results' := results ++ [join printable] in
        if len results' >=? max_results then (results', printable)
        else scan_loop min_len max_results data' results' []
      else scan_loop min_len max_results data' results []
  end.

(** The body of [_extract_strings] once the file has been read. *)
Definition extract_from (data : list byte) (min_len max_results : Z) : list string :=
  let '(results, printable) := scan_loop min_len max_results data [] [] in
  if (len results <? max_results) && (len printable >=? min_len)
  then results ++ [join printable]
  else results.

Definition _extract_strings (fs : filesystem) (path : string)
    (min_len max_results : Z) : result (list string) :=
  match open_rb fs path with
  | inl _ => ret []                    (* except Exception: return results *)
  | inr data => ret (extract_from data min_len max_results)
  end.

(** *** DigestComputer: [_compute_sha256] *)

(** [hashlib.sha256]: SHA-256 as FIPS 180-4 defines it, on 32-bit words
    kept in [Z] with the wrap-around written out. *)
Module SHA256.

Definition w32 (x : Z) : Z := x mod 2 ^ 32.
Definition add32 (a b : Z) : Z := w32 (a + b).
Definition rotr (n x : Z) : Z := Z.lor (Z.shiftr x n) (w32 (Z.shiftl x (32 - n))).
Definition shr (n x : Z) : Z := Z.shiftr x n.
Definition not32 (x : Z) : Z := Z.lxor x 0xffffffff.

Definition Ch (x y z : Z) : Z := Z.lxor (Z.land x y) (Z.land (not32 x) z).
Definition Maj (x y z : Z) : Z :=
  Z.lxor (Z.lxor (Z.land x y) (Z.land x z)) (Z.land y z).
Definition Sigma0 (x : Z) : Z := Z.lxor (Z.lxor (rotr 2 x) (rotr 13 x)) (rotr 22 x).
Definition Sigma1 (x : Z) : Z := Z.lxor (Z.lxor (rotr 6 x) (rotr 11 x)) (rotr 25 x).
Definition sigma0 (x : Z) : Z := Z.lxor (Z.lxor (rotr 7 x) (rotr 18 x)) (shr 3 x).
Definition sigma1 (x : Z) : Z := Z.lxor (Z.lxor (rotr 17 x) (rotr 19 x)) (shr 10 x).

(** The constants are defined the way the standard defines them: the
    first 32 bits of the fractional parts of the cube roots (for [K]) and
    of the square roots (for [H0]) of the first primes. *)
Definition is_prime (n : nat) : bool :=
  forallb (fun d => negb (Nat.eqb (Nat.modulo n d) 0)) (seq 2 (n - 2)).

Definition primes : list Z :=
  map Z.of_nat (List.filter is_prime (seq 2 310)).

(** The integer cube root, bit by bit from bit [bits - 1] down. *)
Fixpoint cube_root (bits : nat) (n root : Z) : Z :=
  match bits with
  | O => root
  | S bits' =>
      let candidate := root + 2 ^ Z.of_nat bits' in
      cube_root bits' n (if candidate ^ 3 <=? n then candidate else root)
  end.

Definition K : list Z :=
  Eval vm_compute in map (fun p => w32 (cube_root 36 (p * 2 ^ 96) 0)) primes.

(** The eight working words. *)
Record regs := Regs { va : Z; vb : Z; vc : Z; vd : Z; ve : Z; vf : Z; vg : Z; vh : Z }.

Definition root_word (i : nat) : Z := w32 (Z.sqrt (nth i primes 0 * 2 ^ 64)).

Definition H0 : regs :=
  Eval vm_compute in
    Regs (root_word 0) (root_word 1) (root_word 2) (root_word 3)
         (root_word 4) (root_word 5) (root_word 6) (root_word 7).

Definition byteZ (b : byte) : Z := Z.of_N (Byte.to_N b).

(** The [n] low bytes of [x], most significant first. *)
Fixpoint be_bytes (n : nat) (x : Z) : list Z :=
  match n with
  | O => []
  | S n' => be_bytes n' (Z.shiftr x 8) ++ [Z.land x 0xff]
  end.

(** Padding: the bit 1, zeros up to 56 mod 64, the bit length on 8 bytes. *)
Definition pad (msg : list byte) : list Z :=
  let l := len msg in
  map byteZ msg ++ [0x80] ++ repeat 0 (Z.to_nat ((55 - l) mod 64)) ++ be_bytes 8 (8 * l).

Definition be_word (b0 b1 b2 b3 : Z) : Z :=
  Z.lor (Z.lor (Z.lor (Z.shiftl b0 24) (Z.shiftl b1 16)) (Z.shiftl b2 8)) b3.

Fixpoint to_words (bytes : list Z) : list Z :=
  match bytes with
  | b0 :: b1 :: b2 :: b3 :: bytes' => be_word b0 b1 b2 b3 :: to_words bytes'
  | _ => []
  end.

(** Message schedule; [recent] holds the words computed so far, latest
    first. *)
Fixpoint schedule (n : nat) (recent : list Z) : list Z :=
  match n with
  | O => rev recent
  | S n' =>
      let w := add32 (add32 (add32 (sigma1 (nth 1 recent 0)) (nth 6 recent 0))
                            (sigma0 (nth 14 recent 0))) (nth 15 recent 0) in
      schedule n' (w :: recent)
  end.

Definition round (r : regs) (kw : Z * Z) : regs :=
  let t1 := add32 (add32 (add32 (add32 (vh r) (Sigma1 (ve r))) (Ch (ve r) (vf r) (vg r)))
                         (fst kw)) (snd kw) in
  let t2 := add32 (Sigma0 (va r)) (Maj (va r) (vb r) (vc r)) in
  Regs (add32 t1 t2) (va r) (vb r) (vc r) (add32 (vd r) t1) (ve r) (vf r) (vg r).

Definition compress (h : regs) (block : list Z) : regs :=
  let w := schedule 48 (rev block) in
  let r := fold_left round (combine K w) h in
  Regs (add32 (va h) (va r)) (add32 (vb h) (vb r)) (add32 (vc h) (vc r))
       (add32 (vd h) (vd r)) (add32 (ve h) (ve r)) (add32 (vf h) (vf r))
       (add32 (vg h) (vg r)) (add32 (vh h) (vh r)).

(** One compression per 16 words of the padded message. *)
Fixpoint blocks (n : nat) (h : regs) (words : list Z) : regs :=
  match n with
  | O => h
  | S n' => blocks n' (compress h (take 16 words)) (drop 16 words)
  end.

Definition digest (msg : list byte) : regs :=
  let words := to_words (pad msg) in
  blocks (Nat.div (length words) 16) H0 words.

Definition hex_digit (n : Z) : ascii :=
  match Z.to_nat n with
  | 0%nat => "0" | 1%nat => "1" | 2%nat => "2" | 3%nat => "3"
  | 4%nat => "4" | 5%nat => "5" | 6%nat => "6" | 7%nat => "7"
  | 8%nat => "8" | 9%nat => "9" | 10%nat => "a" | 11%nat => "b"
  | 12%nat => "c" | 13%nat => "d" | 14%nat => "e" | _ => "f"
  end%char.

Definition nibble (x shift : Z) : ascii := hex_digit (Z.land (Z.shiftr x shift) 0xf).

Definition hex_word (x : Z) : list ascii :=
  [nibble x 28; nibble x 24; nibble x 20; nibble x 16;
   nibble x 12; nibble x 8; nibble x 4; nibble x 0].

Definition hex (r : regs) : string :=
  string_of_list_ascii
    (hex_word (va r) ++ hex_word (vb r) ++ hex_word (vc r) ++ hex_word (vd r) ++
     hex_word (ve r) ++ hex_word (vf r) ++ hex_word (vg r) ++ hex_word (vh r)).

(** The digest of a byte string as [hexdigest()] prints it. *)
Definition hexdigest_of (msg : list byte) : string := hex (digest msg).

End SHA256.

(** A [hashlib] hash object.  Its documented contract is that successive
    [update] calls are the same as one call on the concatenation, so the
    object is the bytes fed so far. *)
Record hash_object := { fed : list byte }.

Definition hashlib_sha256 : hash_object := {| fed := [] |}.
Definition update (h : hash_object) (b : list byte) : hash_object :=
  {| fed := fed h ++ b |}.
Definition hexdigest (h : hash_object) : string := SHA256.hexdigest_of (fed h).

Definition inspect {A : Type} (a : A) : {b : A | a = b} := exist _ a eq_refl.

(** The [while True] loop of [_compute_sha256]: read a chunk, stop on the
    empty chunk, otherwise feed it; what [read] raises ends the loop.
    [rest] is what the file object has not yet delivered. *)
Equations? read_loop (fs : filesystem) (chunk_size : Z) (rest : list byte)
    (h : hash_object) : result hash_object by wf (length rest) lt :=
  read_loop fs chunk_size rest h with inspect (fh_read fs chunk_size rest) := {
    | exist _ (inl e) _ := raise e;
    | exist _ (inr ([], _)) _ := ret h;
    | exist _ (inr (b :: bs, rest')) _ :=
        read_loop fs chunk_size rest' (update h (b :: bs)) }.
Proof.
  unfold fh_read in *.
  destruct ((chunk_size <? - maxsize - 1) || (maxsize <? chunk_size)); [discriminate|].
  destruct (chunk_size <? -1); [discriminate|].
  destruct (chunk_size =? -1).
  - inversion e; subst. simpl. lia.
  - destruct (buffer_limit fs <? chunk_size); [discriminate|].
    inversion e as [[Ht Hd]]. rewrite length_drop.
    assert (length (take (Z.to_nat chunk_size) rest) <> 0%nat) by (rewrite Ht; discriminate).
    rewrite length_take in *. lia.
Qed.

Definition _compute_sha256 (fs : filesystem) (path : string) (chunk_size : Z)
    : result string :=
  match open_rb fs path with
  | inl e => raise e
  | inr data =>
      match read_loop fs chunk_size data hashlib_sha256 with
      | inl e => raise e
      | inr h => ret (hexdigest h)
      end
  end.

(** [_file_metadata] *)
Definition _file_metadata (fs : filesystem) (path : string)
    : result (gmap string pyval) :=
  match os_stat fs path with
  | inl e => raise e
  | inr st =>
      ret (<["mode" := PInt (st_mode st)]>
          (<["ctime" := PFloat (st_ctime st)]>
          (<["mtime" := PFloat (st_mtime st)]>
          (<["size" := PInt (st_size st)]>
          (<["path" := PStr (abspath fs path)]> ∅)))))
  end.

(** *** Process inspector: [get_pid] *)

(** What [psutil] offers to this module.  Every accessor of a process
    object may raise (access denied, the process went away). *)
Module psutil.

Record popenfile := { path : string; fd : Z }.
Record pconn := { conn_fd : Z; conn_status : string }.

Record Process := {
  name : result string;
  cmdline : result (list string);
  exe : result string;
  cwd : result string;
  username : result string;
  create_time : result Q;
  status : result string;
  (* [cpu_times()._asdict()] *)
  cpu_times : result (list (string * Q));
  (* the attributes of the tuple [memory_info()] returns *)
  memory_info : result (list (string * Z));
  open_files : result (list popenfile);
  connections : result (list pconn)
}.

(** The imported module: [psutil.Process(pid)]. *)
Record module := { Process_ : Z -> result Process }.

End psutil.

(** [getattr(mem, attr, None)] *)
Fixpoint getattr (mem : list (string * Z)) (attr : string) : pyval :=
  match mem with
  | [] => PNone
  | (k, v) :: mem' => if String.eqb k attr then PInt v else getattr mem' attr
  end.

(** [psutil] is [None] when the import failed. *)
Definition _safe_psutil_proc (psutil : option psutil.module) (pid : Z)
    : result (option psutil.Process) :=
  match psutil with
  | None => raise (RuntimeError "psutil not installed. pip install psutil to use get_pid.")
  | Some ps =>
      match psutil.Process_ ps pid with
      | inr proc => ret (Some proc)
      | inl (NoSuchProcess _) => ret None
      | inl e => raise e
      end
  end.

(** [try: out[key] = conv(lookup) except Exception: out[key] = None] *)
Definition try_field {A : Type} (key : string) (lookup : result A)
    (conv : A -> pyval) (out : gmap string pyval) : gmap string pyval :=
  match lookup with
  | inr v => <[key := conv v]> out
  | inl _ => <[key := PNone]> out
  end.

Definition cpu_times_dict (d : list (string * Q)) : pyval :=
  PDict (map (fun kv => (fst kv, PFloat (snd kv))) d).

Definition memory_info_dict (mem : list (string * Z)) : pyval :=
  PDict [("rss", getattr mem "rss"); ("vms", getattr mem "vms")].

Definition open_files_list (fs : list psutil.popenfile) : pyval :=
  PList (map (fun f => PStr (psutil.path f)) fs).

Definition get_pid (psutil : option psutil.module) (pid : Z)
    : result (gmap string pyval) :=
  match _safe_psutil_proc psutil pid with
  | inl e => raise e
  | inr None => raise (ValueError ("No process with pid=" +:+ str_of_Z pid))
  | inr (Some proc) =>
      let out : gmap string pyval := {["pid" := PInt pid]} in
      let out := try_field "name" (psutil.name proc) PStr out in
      let out := try_field "cmdline" (psutil.cmdline proc) (fun l => PList (map PStr l)) out in
      let out := try_field "exe" (psutil.exe proc) PStr out in
      let out := try_field "cwd" (psutil.cwd proc) PStr out in
      let out := try_field "username" (psutil.username proc) PStr out in
      let out := try_field "created" (psutil.create_time proc) PFloat out in
      let out := try_field "status" (psutil.status proc) PStr out in
      let out := try_field "cpu_times" (psutil.cpu_times proc) cpu_times_dict out in
      let out := try_field "memory_info" (psutil.memory_info proc) memory_info_dict out in
      let out := try_field "open_files" (psutil.open_files proc) open_files_list out in
      let out := try_field "connections_count" (psutil.connections proc)
                   (fun conns => PInt (len conns)) out in
      ret out
  end.

(** *** [get_source] *)

(** What [os] and [os.path] offer beyond [filesystem], and what [str]
    offers on a path: [str.lower] follows the Unicode tables and is taken
    from the interpreter like the rest. *)
Record os_module := {
  (* [os.path.exists(path)] *)
  path_exists : string -> bool;
  (* [os.access(path, os.X_OK)] *)
  access_X_OK : string -> bool;
  (* [os.path.basename], [os.path.dirname] *)
  basename : string -> string;
  dirname : string -> string;
  (* [path.lower()] *)
  lower : string -> string
}.

(** The argument of [get_source]: an [int] or a [str]. *)
Inductive pid_or_path : Type :=
| Pid (pid : Z)
| Path (path : string).

(** [s.endswith(suffix)] *)
Definition endswith (s suffix : string) : bool :=
  (String.length suffix <=? String.length s)%nat
  && String.eqb
       (String.substring (String.length s - String.length suffix)
          (String.length suffix) s)
       suffix.

(** [needle in hay] *)
Fixpoint contains (needle hay : string) : bool :=
  String.prefix needle hay
  || match hay with
     | EmptyString => false
     | String _ hay' => contains needle hay'
     end.

(** The path [get_source] works on: the argument itself, or the
    executable of the process. *)
Definition resolve_path (psutil : option psutil.module) (arg : pid_or_path)
    : result (option string) :=
  match arg with
  | Pid pid =>
      match psutil with
      | None =>
          raise (RuntimeError "psutil not installed. pip install psutil to use pid lookup.")
      | Some _ =>
          match _safe_psutil_proc psutil pid with
          | inl e => raise e
          | inr None => raise (ValueError ("No process with pid=" +:+ str_of_Z pid))
          | inr (Some proc) =>
              ret match psutil.exe proc with
                  | inr p => Some p
                  | inl _ => None       (* except Exception: path = None *)
                  end
          end
      end
  | Path p => ret (Some p)
  end.

(** The record [get_source] builds for a path that exists.  [str_exn] is
    [str(e)]. *)
Definition describe (str_exn : exn -> string) (fs : filesystem) (os : os_module)
    (path : string) (strings_min_len strings_limit : Z) : gmap string pyval :=
  let out : gmap string pyval := {["source_path" := PStr (abspath fs path)]} in
  let out :=
    match _file_metadata fs path with
    | inr meta => <["file" := PDict (map_to_list meta)]> out
    | inl e => <["file" := PDict [("error", PStr (str_exn e))]]> out
    end in
  let out :=
    match _compute_sha256 fs path 8192 with
    | inr digest => <["sha256" := PStr digest]> out
    | inl e => <["sha256" := PStr ("error: " +:+ str_exn e)]> out
    end in
  let out :=
    match _extract_strings fs path strings_min_len strings_limit with
    | inr found => <["strings" := PList (map PStr found)]> out
    | inl e => <["strings" := PList [PStr ("error extracting strings: " +:+ str_exn e)]]> out
    end in
  let out := <["is_executable" := PBool (access_X_OK os path)]> out in
  let out :=
    <["is_script_like" :=
        PBool (endswith path ".py" || endswith path ".pyc" || endswith path ".pyo")]> out in
  let out := <["guess_package" := PNone]> out in
  let lowered := lower os path in
  if contains "site-packages" lowered || contains "dist-packages" lowered
  then <["guess_package" := PStr (basename os (dirname os path))]> out
  else out.

Definition get_source (str_exn : exn -> string) (psutil : option psutil.module)
    (fs : filesystem) (os : os_module) (arg : pid_or_path)
    (strings_min_len strings_limit : Z) : result (gmap string pyval) :=
  match resolve_path psutil arg with
  | inl e => raise e
  | inr (None | Some "") =>
      raise (ValueError "Could not determine executable path for the input.")
  | inr (Some path) =>
      if path_exists os path
      then ret (describe str_exn fs os path strings_min_len strings_limit)
      else raise (FileNotFoundError ("Path does not exist: " +:+ path))
  end.

End re.

(** ** inferas/web.py *)

(** *** What [bs4] offers

    [soup] is a parsed document, [tag] an element of it.  The parser and
    the queries belong to the library; the module below only calls them. *)

Inductive criteria : Type :=
| ByName (names : list string)               (* find_all("a"), soup([...]) *)
| ByNameWithAttr (name attr : string)        (* find_all("a", href=True) *)
| ByAttrPresent (attr : string)              (* find_all(attrs={"onclick": True}) *)
| ByAttrValue (attr value : string)          (* find_all(attrs={"role": "button"}) *)
| ByClass (class_ : string)                  (* find_all(class_=...) *)
| ById (id : string).                        (* find(id=...) *)

Class Bs4 (soup tag : Type) := {
  (* BeautifulSoup(markup, "html.parser"); the parser may reject the markup *)
  BeautifulSoup : string -> result soup;
  (* str(soup), str(tag) *)
  soup_str : soup -> string;
  tag_str : tag -> string;
  find_all : soup -> criteria -> list tag;
  find : soup -> criteria -> option tag;
  (* soup.select(selector); soupsieve raises on a selector it cannot parse *)
  select : soup -> string -> result (list tag);
  (* every element matching the criteria removed with decompose() *)
  decompose_all : soup -> criteria -> soup;
  stripped_strings : soup -> list string;
  (* el.get_text() and el.get_text(strip=True) *)
  get_text : tag -> string;
  get_text_strip : tag -> string;
  (* dict(el.attrs) and el.get(key) *)
  attrs : tag -> list (string * pyval);
  tag_get : tag -> string -> option string
}.

(** *** What [requests], [time] and [random] offer *)

Record response := { status_code : Z; text : string }.

(** [Response.raise_for_status] *)
Definition raise_for_status (r : response) : result unit :=
  if (400 <=? status_code r) && (status_code r <? 600)
  then raise (HTTPError (status_code r))
  else ret tt.

Inductive event : Type :=
| Sleep (seconds : Q)                                      (* time.sleep *)
| Get (link : string) (headers : list (string * string)) (timeout : Z)
                                                           (* requests.get *)
| Notice (retry : Z) (link : string) (e : exn) (wait : Z).  (* the retry notice *)

(** The world outside the process: what the network answers to the n-th
    request, what [random.uniform] draws, and what has happened so far,
    oldest event first. *)
Record world := {
  server : nat -> string -> result response;
  uniform : Q -> Q -> Q;
  trace : list event
}.

Definition is_get (ev : event) : bool :=
  match ev with Get _ _ _ => true | _ => false end.

(** The number of network attempts made so far. *)
Definition requests_made (tr : list event) : nat :=
  length (List.filter is_get tr).

(** The same world with another history. *)
Definition with_trace (w : world) (tr : list event) : world :=
  {| server := server w; uniform := uniform w; trace := tr |}.

Definition log (ev : event) (w : world) : world :=
  with_trace w (trace w ++ [ev]).

(** [range(n)] *)
Definition range (n : Z) : list Z := map Z.of_nat (seq 0 (Z.to_nat n)).

Module scraper.

Section WithBs4.
Context {soup tag : Type} {bs4 : Bs4 soup tag}.

Record self := {
  user_agent : string;
  delay : Q * Q;
  timeout : Z;
  max_retries : Z;
  last_html : option string;
  last_url : option string;
  _soup : option soup
}.

Definition __init__ (user_agent : option string) (delay : Q * Q)
    (timeout max_retries : Z) : self :=
  {| user_agent :=
       match user_agent with
       | None | Some "" => "inferas-scraper/0.1 (+https://github.com/yourname/inferas)"
       | Some ua => ua
       end;
     delay := delay; timeout := timeout; max_retries := max_retries;
     last_html := None; last_url := None; _soup := None |}.

Definition set_fetched (s : self) (html link : string) : self :=
  {| user_agent := user_agent s; delay := delay s; timeout := timeout s;
     max_retries := max_retries s;
     last_html := Some html; last_url := Some link; _soup := _soup s |}.

Definition set_soup (s : self) (sp : soup) : self :=
  {| user_agent := user_agent s; delay := delay s; timeout := timeout s;
     max_retries := max_retries s;
     last_html := last_html s; last_url := last_url s; _soup := Some sp |}.

Definition _polite_sleep (s : self) (w : world) : world :=
  log (Sleep (uniform w (fst (delay s)) (snd (delay s)))) w.

(** The [try] block of [getweb]: one network attempt.  It yields the
    exception it raised or the HTML it returned, with the instance and
    the world as it left them. *)
Definition attempt (s : self) (link : string) (headers : list (string * string))
    (w : world) : result string * self * world :=
  let w' := log (Get link headers (timeout s)) w in
  match server w (requests_made (trace w)) link with
  | inl e => (inl e, s, w')
  | inr r =>
      match raise_for_status r with
      | inl e => (inl e, s, w')
      | inr _ =>
          let html := text r in
          let s' := set_fetched s html link in
          match BeautifulSoup html with
          | inl e => (inl e, s', w')
          | inr sp => (inr html, set_soup s' sp, w')
          end
      end
  end.

(** [raise last_exc] *)
Definition raise_last (last_exc : option exn) : exn :=
  match last_exc with
  | Some e => e
  | None => TypeError "exceptions must derive from BaseException"
  end.

(** The [for attempt in range(self.max_retries)] loop with its [except]
    clause. *)
Fixpoint retry_loop (attempts : list Z) (last_exc : option exn) (s : self)
    (link : string) (headers : list (string * string)) (w : world)
    : result string * self * world :=
  match attempts with
  | [] => (inl (raise_last last_exc), s, w)
  | attempt_no :: attempts' =>
      match attempt s link headers w with
      | (inr html, s', w') => (inr html, s', w')
      | (inl e, s', w') =>
          if attempt_no =? max_retries s' - 1 then (inl e, s', w')
          else
            let wait := 2 ^ attempt_no in
            let w' := log (Notice (attempt_no + 1) link e wait) w' in
            let w' := log (Sleep (inject_Z wait)) w' in
            retry_loop attempts' (Some e) s' link headers w'
      end
  end.

(** [headers or {"User-Agent": self.user_agent}] *)
Definition effective_headers (s : self) (headers : option (list (string * string)))
    : list (string * string) :=
  match headers with
  | None | Some [] => [("User-Agent", user_agent s)]
  | Some h => h
  end.

Definition getweb (s : self) (link : string)
    (headers : option (list (string * string))) (respect_delay : bool)
    (w : world) : result string * self * world :=
  let headers := effective_headers s headers in
  let w := if respect_delay then _polite_sleep s w else w in
  retry_loop (range (max_retries s)) None s link headers w.

Definition _ensure_soup (s : self) : result self :=
  match _soup s with
  | Some _ => ret s
  | None =>
      match last_html s with
      | None | Some "" => raise (RuntimeError "No HTML loaded. call getweb(url) first.")
      | Some html =>
          match BeautifulSoup html with
          | inl e => raise e
          | inr sp => ret (set_soup s sp)
          end
      end
  end.

(** [self._soup] where a query uses it, after [_ensure_soup] has
    returned; it is never [None] there. *)
Definition the_soup (s : self) : result soup :=
  match _soup s with
  | Some sp => ret sp
  | None => raise (TypeError "'NoneType' object")
  end.

Definition extractalltext (s : self) (collapse_whitespace : bool)
    : result (string * self) :=
  bind (_ensure_soup s) (fun s =>
  bind (the_soup s) (fun sp =>
  let sp := decompose_all sp (ByName ["script"; "style"; "noscript"]) in
  let texts := stripped_strings sp in
  ret (if collapse_whitespace then String.concat " " texts
       else String.concat (String (ascii_of_byte x0a) "") texts,
       set_soup s sp))).

(** The helper [push] of [extractallinteractions]. *)
Definition push (out : list pyval) (el : tag) (typ : string) : list pyval :=
  let text := if String.eqb (get_text el) "" then "" else get_text_strip el in
  out ++ [PDict [("type", PStr typ); ("text", PStr text); ("attrs", PDict (attrs el))]].

Definition push_all (typ : tag -> string) (els : list tag) (out : list pyval)
    : list pyval :=
  fold_left (fun out el => push out el (typ el)) els out.

Definition input_type (i : tag) : string :=
  "input[" +:+ match tag_get i "type" with Some t => t | None => "text" end +:+ "]".

Definition extractallinteractions (s : self) : result (list pyval * self) :=
  bind (_ensure_soup s) (fun s =>
  bind (the_soup s) (fun sp =>
  let out := [] in
  let out := push_all (fun _ => "button") (find_all sp (ByName ["button"])) out in
  let out := push_all input_type (find_all sp (ByName ["input"])) out in
  let out := push_all (fun _ => "select") (find_all sp (ByName ["select"])) out in
  let out := push_all (fun _ => "textarea") (find_all sp (ByName ["textarea"])) out in
  let out := push_all (fun _ => "link") (find_all sp (ByNameWithAttr "a" "href")) out in
  let out := push_all (fun _ => "form") (find_all sp (ByName ["form"])) out in
  let out := push_all (fun _ => "onclick") (find_all sp (ByAttrPresent "onclick")) out in
  let out := push_all (fun _ => "role=button") (find_all sp (ByAttrValue "role" "button")) out in
  ret (out, s))).

Definition get_element (s : self) (el : string) : result (list string * self) :=
  bind (_ensure_soup s) (fun s =>
  bind (the_soup s) (fun sp =>
  bind (select sp el) (fun items =>
  ret (map tag_str items, s)))).

Definition get_by_class (s : self) (_class : string) : result (list string * self) :=
  bind (_ensure_soup s) (fun s =>
  bind (the_soup s) (fun sp =>
  ret (map tag_str (find_all sp (ByClass _class)), s))).

Definition get_by_id (s : self) (id : string) : result (option string * self) :=
  bind (_ensure_soup s) (fun s =>
  bind (the_soup s) (fun sp =>
  ret (option_map tag_str (find sp (ById id)), s))).

End WithBs4.

Arguments self : clear implicits.

End scraper.

(** *** The document tree the injector edits

    [BeautifulSoup] objects are trees that [injection] mutates through
    [soup.body], [soup.head] and [soup.html]; here the tree is a value
    and an in-place edit of the first matching element is a rewrite of
    the tree at that element. *)

Inductive node : Type :=
| Tag (name : string) (attributes : list (string * string)) (contents : list node)
| NavigableString (s : string).

(** The [contents] of a [BeautifulSoup] object. *)
Abbreviation document := (list node).

(** The first hit of [f] along a list. *)
Definition first_some {A B : Type} (f : A -> option B) : list A -> option B :=
  fix go (l : list A) : option B :=
    match l with
    | [] => None
    | x :: l' => match f x with Some y => Some y | None => go l' end
    end.

(** Rewrite the first element of a list that [f] accepts. *)
Definition update_first {A : Type} (f : A -> option A) : list A -> option (list A) :=
  fix go (l : list A) : option (list A) :=
    match l with
    | [] => None
    | x :: l' =>
        match f x with
        | Some x' => Some (x' :: l')
        | None => option_map (cons x) (go l')
        end
    end.

(** The first element called [name] in document order, at or below [n]. *)
Fixpoint find_in (name : string) (n : node) : option node :=
  match n with
  | NavigableString _ => None
  | Tag nm _ cs =>
      if String.eqb nm name then Some n else first_some (find_in name) cs
  end.

(** [soup.body], [soup.head], [soup.html]: [soup.find(name)]. *)
Definition soup_find (soup : document) (name : string) : option node :=
  first_some (find_in name) soup.

(** Apply [edit] to the contents of the first element called [name]. *)
Fixpoint edit_in (name : string) (edit : list node -> list node) (n : node)
    : option node :=
  match n with
  | NavigableString _ => None
  | Tag nm at_ cs =>
      if String.eqb nm name then Some (Tag nm at_ (edit cs))
      else option_map (Tag nm at_) (update_first (edit_in name edit) cs)
  end.

(** The methods of a tag that [injection] calls: [t.insert(0, x)] and
    [t.append(x)].  A [BeautifulSoup] object given as [x] is inserted child
    by child, a tag as itself. *)
Inductive method : Type :=
| insert_0 (x : list node)
| append (x : list node).

Definition method_name (m : method) : string :=
  match m with
  | insert_0 _ => "insert"
  | append _ => "append"
  end.

Definition call (m : method) (cs : list node) : list node :=
  match m with
  | insert_0 x => x ++ cs
  | append x => cs ++ x
  end.

(** What Python raises for [None.<attr>]. *)
Definition no_attribute (attr : string) : exn :=
  AttributeError ("'NoneType' object has no attribute '" +:+ attr +:+ "'").

(** [soup.<name>.<method>(...)]: the method is called on the first
    element called [name], and on [None] when there is none. *)
Definition soup_edit (soup : document) (name : string) (m : method)
    : result document :=
  match update_first (edit_in name (call m)) soup with
  | Some soup' => ret soup'
  | None => raise (no_attribute (method_name m))
  end.

Definition new_tag (name : string) : node := Tag name [] [].

Definition is_in (x : string) (l : list string) : bool :=
  existsb (String.eqb x) l.

Module injection.

Section WithBs4.
Context {bs4 : Bs4 document node}.

Definition element (html snippet where_ : string) : result string :=
  bind (BeautifulSoup html) (fun soup =>
  (* ensure there's a body *)
  let soup :=
    match soup_find soup "body" with
    | None => [Tag "body" [] soup]
    | Some _ => soup
    end in
  bind (BeautifulSoup snippet) (fun snippet_soup =>
  bind
    (if is_in where_ ["head"; "start"] then
       bind
         match soup_find soup "head" with
         | None => soup_edit soup "html" (insert_0 [new_tag "head"])
         | Some _ => ret soup
         end
         (fun soup => soup_edit soup "head" (append snippet_soup))
     else if is_in where_ ["body-start"; "start-body"] then
       soup_edit soup "body" (insert_0 snippet_soup)
     else
       soup_edit soup "body" (append snippet_soup))
    (fun soup => ret (soup_str soup)))).

Definition css (html snippet where_ : string) : result string :=
  bind (BeautifulSoup html) (fun soup =>
  bind
    match soup_find soup "head" with
    | None =>
        let soup :=
          match soup_find soup "html" with
          | None => [Tag "html" [] soup]
          | Some _ => soup
          end in
        soup_edit soup "html" (insert_0 [new_tag "head"])
    | Some _ => ret soup
    end
    (fun soup =>
  let style_tag := Tag "style" [] [NavigableString snippet] in
  bind (soup_edit soup "head" (append [style_tag])) (fun soup =>
  ret (soup_str soup)))).

End WithBs4.

End injection.

(** ** Test doubles

    A small stand-in for [bs4] on attribute-free markup, used to run the
    functions above on concrete documents.  It reads [<name>], [</name>]
    and text, closes what is left open at the end, ignores a closing tag
    that matches nothing, skips the marked sections [html.parser] knows
    and, as [html.parser] does, rejects a marked section with any other
    keyword, such as [<![foo[bar]]>]. *)

Module Mini.

Inductive token : Type :=
| TOpen (name : string)
| TClose (name : string)
| TText (s : string)
| TMarked.

Definition flush (acc : string) : list token :=
  if String.eqb acc "" then [] else [TText acc].

Definition is_letter (c : ascii) : bool :=
  let n := Z.of_N (N_of_ascii c) in
  ((65 <=? n) && (n <=? 90)) || ((97 <=? n) && (n <=? 122)).

(** The keyword that opens a marked section. *)
Fixpoint section_name (s : string) : string :=
  match s with
  | String c s' => if is_letter c then String c (section_name s') else ""
  | EmptyString => ""
  end.

Definition known_sections : list string :=
  ["temp"; "cdata"; "ignore"; "include"; "rcdata"; "if"; "else"; "endif"].

Definition tag_token (inside : string) : list token :=
  match inside with
  | String "/" name => [TClose name]
  | String "!" (String "[" rest) =>
      if is_in (section_name rest) known_sections then [] else [TMarked]
  | _ => [TOpen inside]
  end.

Definition snoc (acc : string) (c : ascii) : string := acc +:+ String c "".

Fixpoint tokens (cs : list ascii) (in_tag : bool) (acc : string) : list token :=
  match cs with
  | [] => if in_tag then [] else flush acc
  | c :: cs' =>
      if in_tag then
        if Ascii.eqb c ">" then tag_token acc ++ tokens cs' false ""
        else tokens cs' true (snoc acc c)
      else if Ascii.eqb c "<" then flush acc ++ tokens cs' true ""
      else tokens cs' false (snoc acc c)
  end.

(** An open element and the children it has so far. *)
Definition frame : Type := (string * list node)%type.

Definition add_children (ns : list node) (stack : list frame) (top : list node)
    : list frame * list node :=
  match stack with
  | [] => ([], top ++ ns)
  | (nm, cs) :: st => ((nm, cs ++ ns) :: st, top)
  end.

Fixpoint close_all (pending : list node) (stack : list frame) (top : list node)
    : document :=
  match stack with
  | [] => top ++ pending
  | (nm, cs) :: st => close_all [Tag nm [] (cs ++ pending)] st top
  end.

Fixpoint close_until (name : string) (pending : list node) (stack : list frame)
    (top : list node) : list frame * list node :=
  match stack with
  | [] => ([], top ++ pending)
  | (nm, cs) :: st =>
      if String.eqb nm name
      then add_children [Tag nm [] (cs ++ pending)] st top
      else close_until name [Tag nm [] (cs ++ pending)] st top
  end.

Fixpoint build (toks : list token) (stack : list frame) (top : list node)
    : result document :=
  match toks with
  | [] => ret (close_all [] stack top)
  | TMarked :: _ => raise (ParserRejectedMarkup "unknown status keyword in marked section")
  | TText s :: toks' =>
      let '(stack, top) := add_children [NavigableString s] stack top in
      build toks' stack top
  | TOpen name :: toks' => build toks' ((name, []) :: stack) top
  | TClose name :: toks' =>
      if is_in name (map fst stack) then
        let '(stack, top) := close_until name [] stack top in
        build toks' stack top
      else build toks' stack top
  end.

Definition parse (markup : string) : result document :=
  build (tokens (list_ascii_of_string markup) false "") [] [].

Fixpoint node_str (n : node) : string :=
  match n with
  | NavigableString s => s
  | Tag nm _ cs =>
      "<" +:+ nm +:+ ">" +:+ String.concat "" (map node_str cs) +:+ "</" +:+ nm +:+ ">"
  end.

Definition doc_str (d : document) : string := String.concat "" (map node_str d).

Fixpoint elements (n : node) : list node :=
  match n with
  | NavigableString _ => []
  | Tag _ _ cs => n :: flat_map elements cs
  end.

Fixpoint strings (n : node) : list string :=
  match n with
  | NavigableString s => [s]
  | Tag _ _ cs => flat_map strings cs
  end.

Definition attr (n : node) (key : string) : option string :=
  match n with
  | NavigableString _ => None
  | Tag _ at_ _ => option_map snd (List.find (fun kv => String.eqb (fst kv) key) at_)
  end.

Definition has_value (n : node) (key value : string) : bool :=
  match attr n key with Some v => String.eqb v value | None => false end.

Definition matches (c : criteria) (n : node) : bool :=
  match n with
  | NavigableString _ => false
  | Tag nm _ _ =>
      match c with
      | ByName names => is_in nm names
      | ByNameWithAttr name a => String.eqb nm name && bool_decide (is_Some (attr n a))
      | ByAttrPresent a => bool_decide (is_Some (attr n a))
      | ByAttrValue a v => has_value n a v
      | ByClass v => has_value n "class" v
      | ById v => has_value n "id" v
      end
  end.

Fixpoint prune (c : criteria) (n : node) : list node :=
  if matches c n then []
  else match n with
       | NavigableString _ => [n]
       | Tag nm at_ cs => [Tag nm at_ (flat_map (prune c) cs)]
       end.

(** The selectors known here are element names separated by commas; like
    soupsieve, a selector with an empty part is refused, the empty
    selector and one ending in a comma among them.  Every other selector
    is refused as well. *)
Fixpoint selector_names (cs : list ascii) (acc : string) : list string :=
  match cs with
  | [] => [acc]
  | c :: cs' =>
      if Ascii.eqb c "," then acc :: selector_names cs' ""
      else selector_names cs' (snoc acc c)
  end.

Definition is_name (s : string) : bool :=
  negb (String.eqb s "") && forallb is_letter (list_ascii_of_string s).

Definition select_names (sel : string) : result (list string) :=
  let names := selector_names (list_ascii_of_string sel) "" in
  if forallb is_name names then ret names
  else raise (SelectorSyntaxError ("Invalid selector: " +:+ sel)).

#[export] Instance bs4 : Bs4 document node := {|
  BeautifulSoup := parse;
  soup_str := doc_str;
  tag_str := node_str;
  find_all d c := List.filter (matches c) (flat_map elements d);
  find d c := List.find (matches c) (flat_map elements d);
  select d sel :=
    bind (select_names sel) (fun names =>
    ret (List.filter (matches (ByName names)) (flat_map elements d)));
  decompose_all d c := flat_map (prune c) d;
  stripped_strings d := flat_map strings d;
  get_text n := String.concat "" (strings n);
  get_text_strip n := String.concat "" (strings n);
  attrs n := match n with
             | Tag _ at_ _ => map (fun kv => (fst kv, PStr (snd kv))) at_
             | NavigableString _ => []
             end;
  tag_get := attr
|}.

(** File systems holding one file, or none. *)
Definition one_file (path : string) (data : list byte) : re.filesystem :=
  {| re.open_rb p := if String.eqb p path then ret data else raise (FileNotFoundError p);
     re.os_stat p := if String.eqb p path
                     then ret {| re.st_size := len data; re.st_mtime := 0%Q;
                                 re.st_ctime := 0%Q; re.st_mode := 33188 |}
                     else raise (FileNotFoundError p);
     re.abspath p := p;
     re.max_buffer := 2 ^ 30;
     re.no_buffer n := MemoryError "" |}.

Definition no_files : re.filesystem :=
  {| re.open_rb p := raise (FileNotFoundError p);
     re.os_stat p := raise (FileNotFoundError p);
     re.abspath p := p;
     re.max_buffer := 2 ^ 30;
     re.no_buffer n := MemoryError "" |}.

(** A server that answers the first [length script] requests as scripted
    and refuses the connection afterwards. *)
Definition scripted (script : list (result response)) : world :=
  {| server n _ := nth n script (raise (RequestException "connection refused"));
     uniform a b := a;
     trace := [] |}.

(** An [os] in which exactly [path] exists, not executable, with POSIX
    [basename] and [dirname] cut at the last slash. *)
Fixpoint split_last_slash (s : string) : option (string * string) :=
  match s with
  | EmptyString => None
  | String c s' =>
      match split_last_slash s' with
      | Some (dir, base) => Some (String c dir, base)
      | None => if Ascii.eqb c "/" then Some (EmptyString, s') else None
      end
  end.

(** [str.lower] on a text of ASCII characters; other characters are left
    as they are. *)
Definition lower_char (c : ascii) : ascii :=
  let n := Z.of_N (N_of_ascii c) in
  if (65 <=? n) && (n <=? 90) then ascii_of_N (Z.to_N (n + 32)) else c.

Fixpoint ascii_lower (s : string) : string :=
  match s with
  | EmptyString => EmptyString
  | String c s' => String (lower_char c) (ascii_lower s')
  end.

Definition one_path (path : string) : re.os_module :=
  {| re.path_exists p := String.eqb p path;
     re.access_X_OK p := false;
     re.basename p := match split_last_slash p with Some (_, b) => b | None => p end;
     re.dirname p := match split_last_slash p with Some (d, _) => d | None => "" end;
     re.lower := ascii_lower |}.

(** A [str] for exceptions that prints their payload. *)
Definition str_exn (e : exn) : string :=
  match e with
  | RequestException m | ParserRejectedMarkup m | RuntimeError m | ValueError m
  | TypeError m | AttributeError m | FileNotFoundError m | PermissionError m
  | AccessDenied m | OverflowError m | MemoryError m | SelectorSyntaxError m => m
  | HTTPError n | NoSuchProcess n => str_of_Z n
  end.

(** A process table with one process, pid 1, whose open files may not be
    read. *)
Definition init_process : re.psutil.Process :=
  {| re.psutil.name := ret "init";
     re.psutil.cmdline := ret ["/sbin/init"];
     re.psutil.exe := ret "/sbin/init";
     re.psutil.cwd := ret "/";
     re.psutil.username := ret "root";
     re.psutil.create_time := ret 0%Q;
     re.psutil.status := ret "sleeping";
     re.psutil.cpu_times := ret [("user", 1%Q); ("system", 2%Q)];
     re.psutil.memory_info := ret [("rss", 4096); ("vms", 8192)];
     re.psutil.open_files := raise (AccessDenied "open_files");
     re.psutil.connections := ret [] |}.

(** The same process when its executable may not be read either. *)
Definition hidden_process : re.psutil.Process :=
  {| re.psutil.name := ret "init";
     re.psutil.cmdline := ret ["/sbin/init"];
     re.psutil.exe := raise (AccessDenied "exe");
     re.psutil.cwd := ret "/";
     re.psutil.username := ret "root";
     re.psutil.create_time := ret 0%Q;
     re.psutil.status := ret "sleeping";
     re.psutil.cpu_times := ret [("user", 1%Q); ("system", 2%Q)];
     re.psutil.memory_info := ret [("rss", 4096); ("vms", 8192)];
     re.psutil.open_files := raise (AccessDenied "open_files");
     re.psutil.connections := ret [] |}.

Definition one_hidden_process : re.psutil.module :=
  {| re.psutil.Process_ pid :=
       if pid =? 1 then ret hidden_process else raise (NoSuchProcess pid) |}.

Definition one_process : re.psutil.module :=
  {| re.psutil.Process_ pid :=
       if pid =? 1 then ret init_process else raise (NoSuchProcess pid) |}.

End Mini.

(** ** Notions used in the statements *)

Section ReNotions.

Import re.

(** What [_extract_strings] does with the loop's final state. *)
Definition finish (min_len max_results : Z) (st : list string * list byte)
    : list string :=
  let '(results, printable) := st in
  if (len results <? max_results) && (len printable >=? min_len)
  then results ++ [join printable]
  else results.

(** The reference scan of the specification, stated on the buffer as a
    whole: one pass that accumulates consecutive printable bytes and closes
    a run at every byte outside the range and at the end of the buffer;
    of these runs, in buffer order, those of length at least [min_len] are
    results, and the results stop after [max_results] of them. *)
Fixpoint maximal_runs (acc : list byte) (data : list byte) : list (list byte) :=
  match data with
  | [] => [acc]
  | b :: data' =>
      if is_printable b then maximal_runs (acc ++ [b]) data'
      else acc :: maximal_runs [] data'
  end.

Definition qualifies (min_len : Z) (run : list byte) : bool := len run >=? min_len.

Definition qualifying_runs (data : list byte) (min_len : Z) : list string :=
  map join (List.filter (qualifies min_len) (maximal_runs [] data)).

Definition reference_scan (data : list byte) (min_len max_results : Z) : list string :=
  take (Z.to_nat max_results) (qualifying_runs data min_len).

(** The buffer [b"AB\x00CDEF\x01"]. *)
Definition sample_buffer : list byte :=
  list_byte_of_string "AB" ++ [x00] ++ list_byte_of_string "CDEF" ++ [x01].

(** A character of a lowercase hexadecimal numeral. *)
Definition lower_hex (c : ascii) : Prop :=
  In c (list_ascii_of_string "0123456789abcdef").

(** The value a guarded lookup leaves under its key. *)
Definition or_none {A : Type} (lookup : result A) (conv : A -> pyval) : pyval :=
  match lookup with
  | inr v => conv v
  | inl _ => PNone
  end.

End ReNotions.

Section FetchNotions.

Context {soup tag : Type} {bs4 : Bs4 soup tag}.

Import scraper.

(** How the [try] block ends on the request numbered [n]: with the
    exception of [requests.get], of [raise_for_status] or of the parser,
    or with the HTML. *)
Definition outcome (srv : nat -> string -> result response) (n : nat)
    (link : string) : result string :=
  match srv n link with
  | inl e => inl e
  | inr r =>
      match raise_for_status r with
      | inl e => inl e
      | inr _ =>
          match BeautifulSoup (text r) with
          | inl e => inl e
          | inr _ => inr (text r)
          end
      end
  end.

(** The fields [getweb] never assigns. *)
Definition same_config (s s' : self soup) : Prop :=
  user_agent s' = user_agent s /\ delay s' = delay s
  /\ timeout s' = timeout s /\ max_retries s' = max_retries s.

(** What one failed attempt that is not the last adds to the history:
    the request, the notice and the backoff sleep. *)
Definition retry_events (link : string) (hdrs : list (string * string)) (tmo : Z)
    (errs : nat -> exn) (i : nat) : list event :=
  [Get link hdrs tmo;
   Notice (Z.of_nat i + 1) link (errs i) (2 ^ Z.of_nat i);
   Sleep (inject_Z (2 ^ Z.of_nat i))].

(** The durations slept, in order. *)
Definition sleeps (tr : list event) : list Q :=
  flat_map (fun ev => match ev with Sleep d => [d] | _ => [] end) tr.

(** The politeness sleep before the first attempt, when asked for. *)
Definition polite_events (s : self soup) (w : world) (respect_delay : bool)
    : list event :=
  if respect_delay then [Sleep (uniform w (fst (delay s)) (snd (delay s)))] else [].

(** The instances on which no fetch has succeeded: a new one, and what a
    call of [getweb] that raised has left of such an instance. *)
Inductive never_loaded : self soup -> Prop :=
| never_loaded_new ua dl tmo mx : never_loaded (__init__ ua dl tmo mx)
| never_loaded_failed s link headers respect_delay w e s' w' :
    never_loaded s ->
    getweb s link headers respect_delay w = (inl e, s', w') ->
    never_loaded s'.

(** What such an instance looks like: no parsed document, and no stored
    HTML that the parser would accept. *)
Definition unloaded (s : self soup) : Prop :=
  _soup s = None
  /\ match last_html s with
     | None => True
     | Some html => exists e, BeautifulSoup html = inl e
     end.

End FetchNotions.

(** Induction on documents: a property of every child gives the property
    of the element. *)
Fixpoint node_induction (P : node -> Prop)
    (Hstring : forall s, P (NavigableString s))
    (Htag : forall nm at_ cs, Forall P cs -> P (Tag nm at_ cs))
    (n : node) : P n :=
  match n with
  | NavigableString s => Hstring s
  | Tag nm at_ cs =>
      Htag nm at_ cs
        ((fix children (l : list node) : Forall P l :=
            match l with
            | [] => @List.Forall_nil node P
            | c :: l' =>
                @List.Forall_cons node P c l' (node_induction P Hstring Htag c) (children l')
            end) cs)
  end.

(** The contents of the document's body once [element] has made sure
    there is one, with the attributes of that body. *)
Definition body_of (doc : document) : list (string * string) * list node :=
  match soup_find doc "body" with
  | Some (Tag _ at_ cs) => (at_, cs)
  | _ => ([], doc)
  end.

(** Worlds and instances for the examples. *)
Section Examples.

Import scraper.
#[local] Existing Instance Mini.bs4.

(** A new scraper as [scraper()] builds it. *)
Definition fresh : self document :=
  __init__ None (1 # 5, 1)%Q 10 3.

(** Three answers: a timeout, a 503, a page the parser rejects. *)
Definition unlucky : world :=
  Mini.scripted
    [raise (RequestException "timed out");
     ret {| status_code := 503; text := "busy" |};
     ret {| status_code := 200; text := "<![foo[bar]]>" |}].

(** The exceptions these three answers end in. *)
Definition unlucky_errors (i : nat) : exn :=
  match i with
  | 0%nat => RequestException "timed out"
  | 1%nat => HTTPError 503
  | _ => ParserRejectedMarkup "unknown status keyword in marked section"
  end.

(** Two failures, then a page. *)
Definition third_time_lucky : world :=
  Mini.scripted
    [raise (RequestException "timed out");
     ret {| status_code := 503; text := "busy" |};
     ret {| status_code := 200; text := "<html><body><p>x</p></body></html>" |}].

(** An instance with a page loaded, then a fetch of a page the parser
    rejects, one attempt allowed. *)
Definition loaded : self document :=
  {| user_agent := "inferas-scraper/0.1 (+https://github.com/yourname/inferas)";
     delay := (1 # 5, 1)%Q; timeout := 10; max_retries := 1;
     last_html := Some "<p>x</p>"; last_url := Some "http://example.com/first";
     _soup := Some [Tag "p" [] [NavigableString "x"]] |}.

(** An instance whose page holds a script element. *)
Definition loaded_with_script : self document :=
  {| user_agent := "inferas-scraper/0.1 (+https://github.com/yourname/inferas)";
     delay := (1 # 5, 1)%Q; timeout := 10; max_retries := 1;
     last_html := Some "<p>x</p><script>f()</script>";
     last_url := Some "http://example.com/first";
     _soup := Some [Tag "p" [] [NavigableString "x"];
                    Tag "script" [] [NavigableString "f()"]] |}.

(** An instance whose page holds a button with a handler and a link. *)
Definition loaded_with_controls : self document :=
  {| user_agent := "inferas-scraper/0.1 (+https://github.com/yourname/inferas)";
     delay := (1 # 5, 1)%Q; timeout := 10; max_retries := 1;
     last_html := Some "<button onclick=f>ok</button><a href=x>go</a>";
     last_url := Some "http://example.com/first";
     _soup := Some [Tag "button" [("onclick", "f")] [NavigableString "ok"];
                    Tag "a" [("href", "x")] [NavigableString "go"]] |}.

(** One answer: a page the parser rejects. *)
Definition rejected_page : world :=
  Mini.scripted [ret {| status_code := 200; text := "<![foo[bar]]>" |}].

End Examples.

(** ** Notions used in the further properties *)

Section MoreNotions.

Import re.

(** The runs that a byte outside the printable range closes: all but the
    trailing one. *)
Definition terminated_runs (data : list byte) : list (list byte) :=
  removelast (maximal_runs [] data).

(** A byte slice with what precedes and follows it is maximal when it is
    printable and neither neighbour is. *)
Definition maximal_at (pre run post : list byte) : Prop :=
  forallb is_printable run = true
  /\ (pre = [] \/ exists pre' sep, pre = pre' ++ [sep] /\ is_printable sep = false)
  /\ (post = [] \/ exists sep post', post = sep :: post' /\ is_printable sep = false).

(** The attribute [attr] of a tuple of named integers as a Python value,
    [None] when the tuple has no such attribute. *)
Definition attribute (mem : list (string * Z)) (attr : string) : pyval :=
  match List.find (fun kv => String.eqb (fst kv) attr) mem with
  | Some kv => PInt (snd kv)
  | None => PNone
  end.

(** The keys of the record [get_pid] returns. *)
Definition pid_keys : gset string :=
  {[ "pid"; "name"; "cmdline"; "exe"; "cwd"; "username"; "created"; "status";
     "cpu_times"; "memory_info"; "open_files"; "connections_count" ]}.


(** The backoff sleeps after attempts [a .. a+k-1]. *)
Definition backoff (a k : nat) : list Q :=
  map (fun i => inject_Z (2 ^ Z.of_nat i)) (seq a k).

(** Seconds slept in all. *)
Definition total (durations : list Q) : Q := fold_right Qplus 0%Q durations.

(** The attributes and contents of the document's head, if it has one. *)
Definition head_of (doc : document) : list (string * string) * list node :=
  match soup_find doc "head" with
  | Some (Tag _ at_ cs) => (at_, cs)
  | _ => ([], [])
  end.

End MoreNotions.

Section MoreFetchNotions.

Context {soup tag : Type} {bs4 : Bs4 soup tag}.

Import scraper.

(** What holds of the instance after an attempt that returned [html]. *)
Definition holds_page (s : self soup) (link html : string) : Prop :=
  last_html s = Some html /\ last_url s = Some link
  /\ exists sp, BeautifulSoup html = inr sp /\ _soup s = Some sp.

End MoreFetchNotions.

(** * Properties *)

(** ** StringScanner *)

Section Scanner.

Import re.

Lemma extract_from_finish data min_len max_results :
  extract_from data min_len max_results =
  finish min_len max_results (scan_loop min_len max_results data [] []).
Proof. reflexivity. Qed.

Lemma len_app_one {A : Type} (l : list A) (x : A) : len (l ++ [x]) = len l + 1.
Proof. unfold len. rewrite length_app. simpl. lia. Qed.

(** The loop invariant: below the cap, the loop and the final test add
    to [results] the first qualifying runs of what is left to scan, the
    first of them starting with the bytes already in [printable]. *)
Lemma scan_loop_runs min_len max_results data :
  forall results printable,
    len results < max_results ->
    finish min_len max_results (scan_loop min_len max_results data results printable) =
    results ++ take (Z.to_nat (max_results - len results))
                 (map join (List.filter (qualifies min_len) (maximal_runs printable data))).
Proof.
  induction data as [|b data IH]; intros results printable Hcap; simpl.
  - assert (Hlt : (len results <? max_results) = true) by lia.
    rewrite Hlt. simpl. unfold qualifies.
    destruct (len printable >=? min_len); simpl.
    + replace (Z.to_nat (max_results - len results))
        with (S (Z.to_nat (max_results - len results - 1))) by lia.
      simpl. rewrite take_nil. reflexivity.
    + rewrite take_nil, app_nil_r. reflexivity.
  - destruct (is_printable b).
    + apply IH, Hcap.
    + simpl. unfold qualifies at 1.
      destruct (len printable >=? min_len) eqn:Hq.
      * replace (Z.to_nat (max_results - len results))
          with (S (Z.to_nat (max_results - len results - 1))) by lia.
        simpl. rewrite len_app_one.
        destruct (len results + 1 >=? max_results) eqn:Hfull.
        -- simpl. rewrite len_app_one.
           assert (Hge : (len results + 1 <? max_results) = false) by lia.
           rewrite Hge. simpl.
           replace (Z.to_nat (max_results - len results - 1)) with 0%nat by lia.
           reflexivity.
        -- rewrite IH by (rewrite len_app_one; lia).
           rewrite len_app_one, <- app_assoc. simpl.
           replace (max_results - (len results + 1)) with (max_results - len results - 1) by lia.
           reflexivity.
      * apply IH, Hcap.
Qed.

(** Once the loop has broken out at the cap, what follows in the buffer
    is never looked at. *)
Lemma scan_loop_break min_len max_results data more :
  forall results printable,
    len results < max_results ->
    max_results <= len (fst (scan_loop min_len max_results data results printable)) ->
    scan_loop min_len max_results (data ++ more) results printable =
    scan_loop min_len max_results data results printable.
Proof.
  induction data as [|b data IH]; intros results printable Hcap Hfull; simpl in *.
  - lia.
  - destruct (is_printable b); [apply IH; assumption|].
    destruct (len printable >=? min_len); [|apply IH; assumption].
    destruct (len (results ++ [join printable]) >=? max_results) eqn:Hge;
      [reflexivity|].
    apply IH; [lia | assumption].
Qed.

(** The reference is what it says: a buffer of printable bytes is one
    run, and a printable prefix followed by a byte out of range is a run
    followed by the runs of the rest. *)
Lemma maximal_runs_printable run :
  forallb is_printable run = true ->
  forall acc, maximal_runs acc run = [acc ++ run].
Proof.
  induction run as [|b run IH]; simpl; intros Hp acc.
  - rewrite app_nil_r. reflexivity.
  - apply andb_prop in Hp as [Hb Hrun]. rewrite Hb, IH by assumption.
    rewrite <- app_assoc. reflexivity.
Qed.

Lemma maximal_runs_terminated run sep rest :
  forallb is_printable run = true ->
  is_printable sep = false ->
  forall acc, maximal_runs acc (run ++ sep :: rest) = (acc ++ run) :: maximal_runs [] rest.
Proof.
  induction run as [|b run IH]; simpl; intros Hp Hsep acc.
  - rewrite Hsep, app_nil_r. reflexivity.
  - apply andb_prop in Hp as [Hb Hrun]. rewrite Hb, IH by assumption.
    rewrite <- app_assoc. reflexivity.
Qed.

Lemma extract_from_reference data min_len max_results :
  1 <= max_results ->
  extract_from data min_len max_results = reference_scan data min_len max_results.
Proof.
  intros Hmax. rewrite extract_from_finish, scan_loop_runs by (unfold len; simpl; lia).
  unfold reference_scan, qualifying_runs, len. simpl.
  rewrite Z.sub_0_r. reflexivity.
Qed.

(** C3: for every readable file, every [min_len >= 1] and every
    [max_results >= 1], [_extract_strings] returns what the reference
    scan returns: the maximal runs of bytes in [0x20, 0x7E], those of
    length at least [min_len] only, the trailing run included, cut after
    [max_results] of them.  When the buffer holds more than [max_results]
    qualifying runs, exactly [max_results] come back, the first ones in
    buffer order; and once the loop has reached the cap, no byte after
    that point changes the result. *)
Theorem extract_strings_is_reference_scan
    (fs : filesystem) (path : string) (data : list byte) (min_len max_results : Z) :
  open_rb fs path = inr data ->
  1 <= min_len ->
  1 <= max_results ->
  _extract_strings fs path min_len max_results =
    inr (reference_scan data min_len max_results)
  /\ (max_results < len (qualifying_runs data min_len) ->
      exists out,
        _extract_strings fs path min_len max_results = inr out
        /\ len out = max_results
        /\ out = take (Z.to_nat max_results) (qualifying_runs data min_len))
  /\ (forall fs' more,
        open_rb fs' path = inr (data ++ more) ->
        max_results <= len (fst (scan_loop min_len max_results data [] [])) ->
        _extract_strings fs' path min_len max_results =
        _extract_strings fs path min_len max_results).
Proof.
  intros Hopen _ Hmax. unfold _extract_strings. rewrite Hopen.
  rewrite extract_from_reference by assumption.
  split; [reflexivity|]. split.
  - intros Hmany. eexists. split; [reflexivity|]. split; [|reflexivity].
    unfold reference_scan, len in *. rewrite length_take. lia.
  - intros fs' more Hopen' Hfull. rewrite Hopen'. unfold ret. f_equal.
    rewrite <- extract_from_reference by assumption.
    rewrite !extract_from_finish.
    rewrite scan_loop_break; [reflexivity | unfold len; simpl; lia | assumption].
Qed.

Lemma extract_strings_is_reference_scan_witness :
  _extract_strings (Mini.one_file "a.bin" sample_buffer) "a.bin" 2 1 = inr ["AB"].
Proof.
  destruct (extract_strings_is_reference_scan
              (Mini.one_file "a.bin" sample_buffer) "a.bin" sample_buffer 2 1
              eq_refl ltac:(lia) ltac:(lia)) as [H _].
  rewrite H. reflexivity.
Defined.

(** No run is longer than the buffer. *)
Lemma maximal_runs_length data :
  forall acc run,
    In run (maximal_runs acc data) -> (length run <= length acc + length data)%nat.
Proof.
  induction data as [|b data IH]; simpl; intros acc run Hin.
  - destruct Hin as [<-|[]]. lia.
  - destruct (is_printable b).
    + apply IH in Hin. rewrite length_app in Hin. simpl in Hin. lia.
    + destruct Hin as [<-|Hin]; [lia|]. apply IH in Hin. simpl in Hin. lia.
Qed.

Lemma too_short_no_runs data min_len :
  len data < min_len -> qualifying_runs data min_len = [].
Proof.
  intros Hshort. unfold qualifying_runs.
  destruct (List.filter (qualifies min_len) (maximal_runs [] data)) as [|run runs] eqn:E;
    [reflexivity|].
  assert (Hin : In run (List.filter (qualifies min_len) (maximal_runs [] data)))
    by (rewrite E; left; reflexivity).
  apply List.filter_In in Hin as [Hin Hq]. apply maximal_runs_length in Hin.
  unfold qualifies, len in *. simpl in Hin. lia.
Qed.

(** When no run qualifies nothing is emitted, whatever the cap. *)
Lemma scan_loop_nothing min_len max_results data :
  forall results printable,
    List.filter (qualifies min_len) (maximal_runs printable data) = [] ->
    finish min_len max_results (scan_loop min_len max_results data results printable)
    = results.
Proof.
  induction data as [|b data IH]; intros results printable Hnone; simpl in *.
  - unfold qualifies in Hnone.
    destruct (len printable >=? min_len); [discriminate|].
    rewrite andb_false_r. reflexivity.
  - destruct (is_printable b); [apply IH, Hnone|].
    simpl in Hnone. unfold qualifies at 1 in Hnone.
    destruct (len printable >=? min_len); [discriminate|].
    apply IH, Hnone.
Qed.

Lemma extract_from_nothing data min_len max_results :
  List.filter (qualifies min_len) (maximal_runs [] data) = [] ->
  extract_from data min_len max_results = [].
Proof. intros Hnone. rewrite extract_from_finish. apply scan_loop_nothing, Hnone. Qed.

(** C4: on [b"AB\x00CDEF\x01"] the scan returns ["AB"; "CDEF"] with
    [min_len = 2] and nothing with [min_len = 5]; on the empty buffer it
    returns nothing; and whenever [min_len] exceeds the length of the
    buffer it returns nothing. *)
Theorem extract_strings_examples
    (fs : filesystem) (path : string) (data : list byte) :
  open_rb fs path = inr data ->
  (data = sample_buffer ->
     forall max_results, 2 <= max_results ->
       _extract_strings fs path 2 max_results = inr ["AB"; "CDEF"])
  /\ (data = sample_buffer ->
     forall max_results, _extract_strings fs path 5 max_results = inr [])
  /\ (data = [] ->
     forall min_len max_results, 1 <= min_len ->
       _extract_strings fs path min_len max_results = inr [])
  /\ (forall min_len max_results, len data < min_len ->
       _extract_strings fs path min_len max_results = inr []).
Proof.
  intros Hopen.
  assert (Hshort : forall min_len max_results, len data < min_len ->
            _extract_strings fs path min_len max_results = inr []).
  { intros min_len max_results Hlen. unfold _extract_strings. rewrite Hopen.
    unfold ret. f_equal. apply extract_from_nothing.
    apply too_short_no_runs in Hlen. unfold qualifying_runs in Hlen.
    destruct (List.filter (qualifies min_len) (maximal_runs [] data));
      [reflexivity | discriminate]. }
  repeat split.
  - intros -> max_results Hmax. unfold _extract_strings. rewrite Hopen.
    unfold ret. f_equal. rewrite extract_from_reference by lia.
    unfold reference_scan.
    replace (Z.to_nat max_results) with (S (S (Z.to_nat (max_results - 2)))) by lia.
    replace (qualifying_runs sample_buffer 2) with ["AB"; "CDEF"]
      by (vm_compute; reflexivity).
    simpl. rewrite take_nil. reflexivity.
  - intros -> max_results. unfold _extract_strings. rewrite Hopen.
    unfold ret. f_equal. apply extract_from_nothing. vm_compute. reflexivity.
  - intros -> min_len max_results Hmin. apply Hshort. unfold len. simpl. lia.
  - exact Hshort.
Qed.

Lemma extract_strings_examples_witness :
  _extract_strings (Mini.one_file "a.bin" sample_buffer) "a.bin" 2 200 = inr ["AB"; "CDEF"]
  /\ _extract_strings (Mini.one_file "a.bin" sample_buffer) "a.bin" 5 200 = inr []
  /\ _extract_strings (Mini.one_file "empty" []) "empty" 4 200 = inr [].
Proof.
  destruct (extract_strings_examples
              (Mini.one_file "a.bin" sample_buffer) "a.bin" sample_buffer eq_refl)
    as (H2 & H5 & _ & _).
  destruct (extract_strings_examples (Mini.one_file "empty" []) "empty" [] eq_refl)
    as (_ & _ & H0 & _).
  split; [apply (H2 eq_refl); lia|].
  split; [apply (H5 eq_refl)|].
  apply (H0 eq_refl); lia.
Defined.

(** C6: when the file cannot be opened, [_extract_strings] returns the
    empty list and raises nothing, whereas [_compute_sha256] raises the
    error [open] raised and [_file_metadata] raises the error [os.stat]
    raised. *)
Theorem extract_strings_swallows_open_error
    (fs : filesystem) (path : string) (e : exn) :
  open_rb fs path = inl e ->
  (forall min_len max_results, _extract_strings fs path min_len max_results = inr [])
  /\ (forall chunk_size, _compute_sha256 fs path chunk_size = inl e)
  /\ (forall e', os_stat fs path = inl e' -> _file_metadata fs path = inl e').
Proof.
  intros Hopen. unfold _extract_strings, _compute_sha256, _file_metadata.
  rewrite Hopen. repeat split; try reflexivity.
  intros e' ->. reflexivity.
Qed.

Lemma extract_strings_swallows_open_error_witness :
  _extract_strings Mini.no_files "/nonexistent" 4 200 = inr []
  /\ _compute_sha256 Mini.no_files "/nonexistent" 8192 = inl (FileNotFoundError "/nonexistent")
  /\ _file_metadata Mini.no_files "/nonexistent" = inl (FileNotFoundError "/nonexistent").
Proof.
  destruct (extract_strings_swallows_open_error
              Mini.no_files "/nonexistent" (FileNotFoundError "/nonexistent") eq_refl)
    as (Hs & Hd & Hm).
  split; [apply Hs|]. split; [apply Hd|]. apply Hm. reflexivity.
Defined.

End Scanner.

(** ** DigestComputer *)

Section Digest.

Import re.

Lemma update_nil h : update h [] = h.
Proof. destruct h as [bytes]. unfold update. simpl. rewrite app_nil_r. reflexivity. Qed.

Lemma update_update h a b : update (update h a) b = update h (a ++ b).
Proof. unfold update. simpl. rewrite app_assoc. reflexivity. Qed.

(** The equation the loop took its case from, unfolded. *)
Ltac read_case E :=
  match goal with
  | e : fh_read _ _ _ = _ |- _ => assert (E := e); unfold fh_read in E
  end.

Lemma buffer_limit_bounds fs : 65536 <= buffer_limit fs <= maxsize.
Proof. unfold buffer_limit, maxsize. lia. Qed.

(** With a chunk size that [read] accepts and that is not zero, the loop
    ends having fed every byte of the file, in order. *)
Lemma read_loop_feeds_all fs chunk_size rest h :
  chunk_size = -1 \/ 0 < chunk_size <= buffer_limit fs ->
  read_loop fs chunk_size rest h = inr (update h rest).
Proof.
  intros Hc. pose proof (buffer_limit_bounds fs) as Hlimit. unfold maxsize in Hlimit.
  funelim (read_loop fs chunk_size rest h).
  - read_case E. unfold maxsize in E.
    destruct ((chunk_size <? - (2 ^ 63 - 1) - 1) || (2 ^ 63 - 1 <? chunk_size)) eqn:H2;
      [apply orb_prop in H2; lia|].
    destruct (chunk_size <? -1) eqn:H1; [lia|].
    destruct (chunk_size =? -1) eqn:H0; [discriminate|].
    destruct (buffer_limit fs <? chunk_size) eqn:H3; [lia | discriminate].
  - read_case E.
    destruct ((chunk_size <? - maxsize - 1) || (maxsize <? chunk_size)); [discriminate|].
    destruct (chunk_size <? -1); [discriminate|].
    destruct (chunk_size =? -1) eqn:H0.
    + inversion E; subst. rewrite update_nil. reflexivity.
    + destruct (buffer_limit fs <? chunk_size); [discriminate|].
      inversion E as [[Ht Hd]].
      destruct rest as [|b rest]; [rewrite update_nil; reflexivity|].
      replace (Z.to_nat chunk_size) with (S (Z.to_nat (chunk_size - 1))) in Ht by lia.
      discriminate.
  - rewrite H by assumption. rewrite update_update. do 2 f_equal.
    read_case E.
    destruct ((chunk_size <? - maxsize - 1) || (maxsize <? chunk_size)); [discriminate|].
    destruct (chunk_size <? -1); [discriminate|].
    destruct (chunk_size =? -1).
    + inversion E; subst. apply app_nil_r.
    + destruct (buffer_limit fs <? chunk_size); [discriminate|].
      inversion E as [[Ht Hd]]. apply take_drop.
Qed.


(** What [read] refuses, the loop raises at its first read. *)
Lemma read_loop_refused fs chunk_size rest h e :
  fh_read fs chunk_size rest = inl e ->
  read_loop fs chunk_size rest h = inl e.
Proof.
  intros Hread.
  funelim (read_loop fs chunk_size rest h); unfold raise in *; congruence.
Qed.

(** The three ways [read] refuses a chunk size. *)
Lemma fh_read_refusals fs n rest :
  (n < - maxsize - 1 \/ maxsize < n ->
   fh_read fs n rest =
   inl (OverflowError "cannot fit 'int' into an index-sized integer"))
  /\ (- maxsize - 1 <= n < -1 ->
      fh_read fs n rest = inl (ValueError "read length must be non-negative or -1"))
  /\ (buffer_limit fs < n <= maxsize -> fh_read fs n rest = inl (no_buffer fs n)).
Proof.
  pose proof (buffer_limit_bounds fs) as Hlimit. unfold fh_read.
  repeat split; intros Hn.
  - replace ((n <? - maxsize - 1) || (maxsize <? n)) with true; [reflexivity|].
    symmetry. apply orb_true_iff. lia.
  - replace ((n <? - maxsize - 1) || (maxsize <? n)) with false
      by (symmetry; apply orb_false_iff; lia).
    replace (n <? -1) with true by lia. reflexivity.
  - replace ((n <? - maxsize - 1) || (maxsize <? n)) with false
      by (symmetry; apply orb_false_iff; lia).
    replace (n <? -1) with false by lia. replace (n =? -1) with false by lia.
    replace (buffer_limit fs <? n) with true by lia. reflexivity.
Qed.

Lemma hex_digit_lower n : lower_hex (SHA256.hex_digit n).
Proof.
  unfold SHA256.hex_digit, lower_hex.
  generalize (Z.to_nat n). intros k.
  do 15 (destruct k as [|k]; [simpl; tauto|]).
  simpl. tauto.
Qed.

Lemma hex_word_lower x : Forall lower_hex (SHA256.hex_word x).
Proof.
  unfold SHA256.hex_word, SHA256.nibble.
  repeat (constructor; [apply hex_digit_lower|]). constructor.
Qed.

Lemma length_string_of_list_ascii l :
  String.length (string_of_list_ascii l) = length l.
Proof. induction l as [|c l IH]; simpl; [reflexivity | rewrite IH; reflexivity]. Qed.

(** Every digest prints as 64 characters out of [0-9a-f]. *)
Lemma hexdigest_of_format msg :
  String.length (SHA256.hexdigest_of msg) = 64%nat
  /\ Forall lower_hex (list_ascii_of_string (SHA256.hexdigest_of msg)).
Proof.
  unfold SHA256.hexdigest_of, SHA256.hex. split.
  - rewrite length_string_of_list_ascii. reflexivity.
  - rewrite list_ascii_of_string_of_list_ascii.
    repeat (apply Forall_app; split); apply hex_word_lower.
Qed.

Lemma compute_sha256_served fs path data chunk_size :
  open_rb fs path = inr data ->
  chunk_size = -1 \/ 0 < chunk_size <= buffer_limit fs ->
  _compute_sha256 fs path chunk_size = inr (SHA256.hexdigest_of data).
Proof.
  intros Hopen Hc. unfold _compute_sha256. rewrite Hopen.
  rewrite read_loop_feeds_all by assumption. reflexivity.
Qed.

Lemma compute_sha256_refused fs path data chunk_size e :
  open_rb fs path = inr data ->
  fh_read fs chunk_size data = inl e ->
  _compute_sha256 fs path chunk_size = inl e.
Proof.
  intros Hopen Hread. unfold _compute_sha256. rewrite Hopen.
  rewrite (read_loop_refused _ _ _ _ e Hread). reflexivity.
Qed.

(** C5 (amended): for a readable file and any two positive chunk sizes
    that [read] can obtain a buffer for, [_compute_sha256] returns the same
    string, the SHA-256 digest of the whole content printed as 64
    lowercase hexadecimal characters; chunk sizes 1 and 65536 are one
    instance.  A chunk size above [sys.maxsize] does not fit a size and
    the call raises [OverflowError]; one up to it for which no buffer can
    be obtained raises what the interpreter raises then. *)
Theorem compute_sha256_chunk_independent
    (fs : filesystem) (path : string) (data : list byte) (c1 c2 : Z) :
  open_rb fs path = inr data ->
  0 < c1 <= buffer_limit fs ->
  0 < c2 <= buffer_limit fs ->
  _compute_sha256 fs path c1 = _compute_sha256 fs path c2
  /\ _compute_sha256 fs path c1 = inr (SHA256.hexdigest_of data)
  /\ _compute_sha256 fs path 1 = _compute_sha256 fs path 65536
  /\ String.length (SHA256.hexdigest_of data) = 64%nat
  /\ Forall lower_hex (list_ascii_of_string (SHA256.hexdigest_of data))
  /\ (forall c, maxsize < c ->
        _compute_sha256 fs path c =
        inl (OverflowError "cannot fit 'int' into an index-sized integer"))
  /\ (forall c, buffer_limit fs < c <= maxsize ->
        _compute_sha256 fs path c = inl (no_buffer fs c)).
Proof.
  intros Hopen H1 H2. pose proof (buffer_limit_bounds fs) as Hlimit.
  rewrite !(compute_sha256_served fs path data) by (try assumption; right; lia).
  split; [reflexivity|]. split; [reflexivity|]. split; [reflexivity|].
  split; [apply hexdigest_of_format|]. split; [apply hexdigest_of_format|].
  split; intros c Hc; apply (compute_sha256_refused fs path data); try assumption;
    apply fh_read_refusals; [right|]; assumption.
Qed.

Lemma compute_sha256_chunk_independent_witness :
  _compute_sha256 (Mini.one_file "abc.txt" (list_byte_of_string "abc")) "abc.txt" 1
  = inr "ba7816bf8f01cfea414140de5dae2223b00361a396177a9cb410ff61f20015ad".
Proof.
  destruct (compute_sha256_chunk_independent
              (Mini.one_file "abc.txt" (list_byte_of_string "abc")) "abc.txt"
              (list_byte_of_string "abc") 1 65536 eq_refl)
    as (_ & H & _).
  - unfold re.buffer_limit, re.maxsize. simpl. lia.
  - unfold re.buffer_limit, re.maxsize. simpl. lia.
  - rewrite H. vm_compute. reflexivity.
Defined.

(** C5 as it was stated fails: the file is readable and both chunk sizes
    are positive, yet chunk size 1 gives the digest and chunk size [2^63]
    raises. *)
Lemma compute_sha256_chunk_counterexample :
  open_rb (Mini.one_file "abc.txt" (list_byte_of_string "abc")) "abc.txt"
    = inr (list_byte_of_string "abc")
  /\ 0 < 1 /\ 0 < 2 ^ 63
  /\ _compute_sha256 (Mini.one_file "abc.txt" (list_byte_of_string "abc")) "abc.txt" 1
     <> _compute_sha256 (Mini.one_file "abc.txt" (list_byte_of_string "abc")) "abc.txt"
          (2 ^ 63).
Proof.
  split; [reflexivity|]. split; [lia|]. split; [lia|].
  pose proof (buffer_limit_bounds
                (Mini.one_file "abc.txt" (list_byte_of_string "abc"))) as Hlimit.
  rewrite (compute_sha256_served
             (Mini.one_file "abc.txt" (list_byte_of_string "abc")) "abc.txt"
             (list_byte_of_string "abc") 1 eq_refl)
    by (right; lia).
  rewrite (compute_sha256_refused
             (Mini.one_file "abc.txt" (list_byte_of_string "abc")) "abc.txt"
             (list_byte_of_string "abc") (2 ^ 63)
             (OverflowError "cannot fit 'int' into an index-sized integer")
             eq_refl eq_refl).
  discriminate.
Qed.

(** The implementation agrees with the published test vectors. *)
Example sha256_empty :
  SHA256.hexdigest_of [] =
  "e3b0c44298fc1c149afbf4c8996fb92427ae41e4649b934ca495991b7852b855".
Proof. vm_compute. reflexivity. Qed.

Example sha256_two_blocks :
  SHA256.hexdigest_of
    (list_byte_of_string "abcdbcdecdefdefgefghfghighijhijkijkljklmklmnlmnomnopnopq") =
  "248d6a61d20638b8e5c026930c3e6039a33ce45964ff2167f6ecedd419db06c1".
Proof. vm_compute. reflexivity. Qed.

End Digest.

(** ** Process inspector *)

Section Inspector.

Import re.

Lemma try_field_insert {A : Type} key (lookup : result A) conv out :
  try_field key lookup conv out = <[key := or_none lookup conv]> out.
Proof. destruct lookup; reflexivity. Qed.

Lemma getattr_attribute mem attr : getattr mem attr = attribute mem attr.
Proof.
  unfold attribute. induction mem as [|[k v] mem IH]; simpl; [reflexivity|].
  destruct (String.eqb k attr); [reflexivity | exact IH].
Qed.

(** C9: for a process that exists, [get_pid] returns a record, and each
    key of it holds the value of its own lookup when that lookup
    succeeded, as a text, a number, a list or a dictionary, and [None]
    when the lookup raised, whatever the other lookups did. *)
Theorem get_pid_field_leniency
    (psutil : option psutil.module) (pid : Z) (proc : psutil.Process) :
  _safe_psutil_proc psutil pid = inr (Some proc) ->
  exists out : gmap string pyval,
    get_pid psutil pid = inr out
    /\ out !! "pid" = Some (PInt pid)
    /\ out !! "name" = Some (or_none (psutil.name proc) PStr)
    /\ out !! "cmdline" =
         Some (or_none (psutil.cmdline proc) (fun l => PList (map PStr l)))
    /\ out !! "exe" = Some (or_none (psutil.exe proc) PStr)
    /\ out !! "cwd" = Some (or_none (psutil.cwd proc) PStr)
    /\ out !! "username" = Some (or_none (psutil.username proc) PStr)
    /\ out !! "created" = Some (or_none (psutil.create_time proc) PFloat)
    /\ out !! "status" = Some (or_none (psutil.status proc) PStr)
    /\ out !! "cpu_times" =
         Some (or_none (psutil.cpu_times proc)
                 (fun times => PDict (map (fun kv => (fst kv, PFloat (snd kv))) times)))
    /\ out !! "memory_info" =
         Some (or_none (psutil.memory_info proc)
                 (fun mem => PDict [("rss", attribute mem "rss");
                                    ("vms", attribute mem "vms")]))
    /\ out !! "open_files" =
         Some (or_none (psutil.open_files proc)
                 (fun files => PList (map (fun f => PStr (psutil.path f)) files)))
    /\ out !! "connections_count" =
         Some (or_none (psutil.connections proc) (fun conns => PInt (len conns))).
Proof.
  intros Hproc. unfold get_pid. rewrite Hproc.
  eexists. split; [reflexivity|].
  rewrite !try_field_insert.
  repeat split; try (by simplify_map_eq).
  simplify_map_eq. f_equal.
  destruct (psutil.memory_info proc) as [e|mem]; [reflexivity|].
  simpl. unfold memory_info_dict. rewrite !getattr_attribute. reflexivity.
Qed.

Lemma get_pid_field_leniency_witness :
  exists out : gmap string pyval,
    get_pid (Some Mini.one_process) 1 = inr out
    /\ out !! "open_files" = Some PNone
    /\ out !! "name" = Some (PStr "init")
    /\ out !! "cmdline" = Some (PList [PStr "/sbin/init"])
    /\ out !! "cpu_times" =
         Some (PDict [("user", PFloat 1%Q); ("system", PFloat 2%Q)])
    /\ out !! "memory_info" = Some (PDict [("rss", PInt 4096); ("vms", PInt 8192)])
    /\ out !! "connections_count" = Some (PInt 0).
Proof.
  destruct (get_pid_field_leniency (Some Mini.one_process) 1 Mini.init_process eq_refl)
    as (out & Hout & _ & Hname & Hcmd & _ & _ & _ & _ & _ & Hcpu & Hmem & Hfiles & Hconns).
  exists out. split; [exact Hout|]. split; [exact Hfiles|].
  split; [exact Hname|]. split; [exact Hcmd|]. split; [exact Hcpu|].
  split; [exact Hmem | exact Hconns].
Defined.

(** The two ways [get_pid] does fail: no [psutil], no such process. *)
Lemma get_pid_without_psutil pid :
  get_pid None pid =
  inl (RuntimeError "psutil not installed. pip install psutil to use get_pid.").
Proof. reflexivity. Qed.

Lemma get_pid_no_such_process ps pid pid' :
  psutil.Process_ ps pid = inl (NoSuchProcess pid') ->
  get_pid (Some ps) pid = inl (ValueError ("No process with pid=" +:+ str_of_Z pid)).
Proof. intros H. unfold get_pid, _safe_psutil_proc. rewrite H. reflexivity. Qed.

End Inspector.

(** ** FetchPolicy *)

Section Fetch.

Context {soup tag : Type} {bs4 : Bs4 soup tag}.

Import scraper.

Lemma same_config_refl (s : self soup) : same_config s s.
Proof. repeat split. Qed.

Lemma same_config_trans (s1 s2 s3 : self soup) :
  same_config s1 s2 -> same_config s2 s3 -> same_config s1 s3.
Proof. unfold same_config. intuition congruence. Qed.

(** A failed attempt has logged one request, has left the configuration
    and [_soup] alone, and has either left the instance as it was or, when
    it was the parser that raised, stored the HTML and the URL. *)
Lemma attempt_fails s link hdrs w e :
  outcome (server w) (requests_made (trace w)) link = inl e ->
  exists s',
    attempt s link hdrs w = (inl e, s', log (Get link hdrs (timeout s)) w)
    /\ same_config s s'
    /\ _soup s' = _soup s
    /\ (s' = s \/ exists html, s' = set_fetched s html link /\ BeautifulSoup html = inl e).
Proof.
  unfold outcome, attempt. intros Hout.
  destruct (server w (requests_made (trace w)) link) as [e0|r].
  - inversion Hout; subst. exists s. repeat split. left. reflexivity.
  - destruct (raise_for_status r) as [e0|[]].
    + inversion Hout; subst. exists s. repeat split. left. reflexivity.
    + destruct (BeautifulSoup (text r)) as [e0|sp] eqn:Hparse; [|discriminate].
      inversion Hout; subst. exists (set_fetched s (text r) link).
      repeat split. right. exists (text r). split; [reflexivity | assumption].
Qed.

Lemma attempt_succeeds s link hdrs w html :
  outcome (server w) (requests_made (trace w)) link = inr html ->
  exists sp,
    BeautifulSoup html = inr sp
    /\ attempt s link hdrs w =
       (inr html, set_soup (set_fetched s html link) sp,
        log (Get link hdrs (timeout s)) w).
Proof.
  unfold outcome, attempt. intros Hout.
  destruct (server w (requests_made (trace w)) link) as [e0|r]; [discriminate|].
  destruct (raise_for_status r) as [e0|[]]; [discriminate|].
  destruct (BeautifulSoup (text r)) as [e0|sp] eqn:Hparse; [discriminate|].
  inversion Hout; subst. exists sp. split; [assumption | reflexivity].
Qed.

Lemma requests_made_app tr tr' :
  requests_made (tr ++ tr') = (requests_made tr + requests_made tr')%nat.
Proof. unfold requests_made. rewrite List.filter_app, length_app. reflexivity. Qed.

Lemma requests_made_retries link hdrs tmo errs a k :
  requests_made (flat_map (retry_events link hdrs tmo errs) (seq a k)) = k.
Proof.
  revert a. induction k as [|k IH]; intros a; [reflexivity|].
  cbn [seq flat_map]. rewrite requests_made_app, IH. reflexivity.
Qed.

Lemma sleeps_retries link hdrs tmo errs a k :
  sleeps (flat_map (retry_events link hdrs tmo errs) (seq a k)) =
  map (fun i => inject_Z (2 ^ Z.of_nat i)) (seq a k).
Proof.
  revert a. induction k as [|k IH]; intros a; [reflexivity|].
  cbn [seq flat_map map]. unfold sleeps in *.
  rewrite flat_map_app, IH. reflexivity.
Qed.

(** The failing head of the loop: attempts [a .. a+k-1] fail and none of
    them is the last one allowed. *)
Lemma retry_loop_failures link hdrs errs base k :
  forall a rest last_exc s w,
    requests_made (trace w) = (base + a)%nat ->
    Z.of_nat (a + k) < max_retries s ->
    (forall i, (a <= i < a + k)%nat -> outcome (server w) (base + i) link = inl (errs i)) ->
    exists s' last_exc',
      retry_loop (map Z.of_nat (seq a k) ++ rest) last_exc s link hdrs w =
      retry_loop rest last_exc' s' link hdrs
        (with_trace w (trace w ++
           flat_map (retry_events link hdrs (timeout s) errs) (seq a k)))
      /\ same_config s s'
      /\ _soup s' = _soup s.
Proof.
  induction k as [|k IH]; intros a rest last_exc s w Hbase Hlt Hfail.
  - exists s, last_exc. cbn [seq map flat_map app]. rewrite app_nil_r.
    destruct w. repeat split.
  - cbn [seq map app retry_loop].
    destruct (attempt_fails s link hdrs w (errs a)) as (s1 & Hatt & Hcfg & Hsoup & _).
    { rewrite Hbase. apply Hfail. lia. }
    rewrite Hatt.
    destruct Hcfg as (Hua & Hdelay & Htmo & Hmax).
    replace (Z.of_nat a =? max_retries s1 - 1) with false by lia.
    destruct (IH (S a) rest (Some (errs a)) s1
                (log (Sleep (inject_Z (2 ^ Z.of_nat a)))
                   (log (Notice (Z.of_nat a + 1) link (errs a) (2 ^ Z.of_nat a))
                      (log (Get link hdrs (timeout s)) w))))
      as (s' & last' & Hloop & Hcfg' & Hsoup').
    + unfold log, with_trace. cbn [trace]. rewrite !requests_made_app, Hbase.
      unfold requests_made. simpl. lia.
    + lia.
    + intros i Hi. simpl. apply Hfail. lia.
    + exists s', last'. rewrite Hloop. split; [|split].
      * f_equal. unfold with_trace, log. simpl. f_equal.
        rewrite Htmo. rewrite <- !app_assoc. reflexivity.
      * eapply same_config_trans; [|exact Hcfg']. repeat split; assumption.
      * congruence.
Qed.

Lemma polite_world (s : self soup) (w : world) (respect_delay : bool) :
  (if respect_delay then _polite_sleep s w else w) =
  with_trace w (trace w ++ polite_events s w respect_delay).
Proof.
  destruct respect_delay; simpl; [reflexivity|].
  rewrite app_nil_r. destruct w. reflexivity.
Qed.

Lemma requests_made_polite (s : self soup) (w : world) (respect_delay : bool) :
  requests_made (polite_events s w respect_delay) = 0%nat.
Proof. destruct respect_delay; reflexivity. Qed.

Lemma range_split (n : Z) (k : nat) :
  Z.of_nat k < n ->
  range n = map Z.of_nat (seq 0 k) ++ Z.of_nat k :: map Z.of_nat (seq (S k) (Z.to_nat n - S k)).
Proof.
  intros Hk. unfold range.
  replace (Z.to_nat n) with (k + S (Z.to_nat n - S k))%nat by lia.
  rewrite seq_app, map_app. simpl.
  replace (k + S (Z.to_nat n - S k) - S k)%nat with (Z.to_nat n - S k)%nat by lia.
  reflexivity.
Qed.

(** C1: when every one of the [max_retries >= 1] attempts raises,
    [getweb] raises the very exception of the last attempt; the history
    grows by the politeness sleep, then request, notice and sleep for each
    attempt but the last, then the last request and nothing after it: exactly
    [max_retries] requests. *)
Theorem getweb_retry_exhaustion
    (s : self soup) (link : string) (headers : option (list (string * string)))
    (respect_delay : bool) (w : world) (errs : nat -> exn) :
  1 <= max_retries s ->
  (forall i, Z.of_nat i < max_retries s ->
     outcome (server w) (requests_made (trace w) + i) link = inl (errs i)) ->
  exists s' w',
    getweb s link headers respect_delay w =
      (inl (errs (Z.to_nat (max_retries s) - 1)%nat), s', w')
    /\ w' = with_trace w
              (trace w ++ polite_events s w respect_delay ++
               flat_map (retry_events link (effective_headers s headers) (timeout s) errs)
                 (seq 0 (Z.to_nat (max_retries s) - 1)) ++
               [Get link (effective_headers s headers) (timeout s)])
    /\ requests_made (trace w') =
       (requests_made (trace w) + Z.to_nat (max_retries s))%nat.
Proof.
  intros Hmax Hfail. unfold getweb. rewrite polite_world.
  set (hdrs := effective_headers s headers).
  set (n1 := (Z.to_nat (max_retries s) - 1)%nat).
  set (w0 := with_trace w (trace w ++ polite_events s w respect_delay)).
  assert (Hbase : requests_made (trace w0) = (requests_made (trace w) + 0)%nat).
  { unfold w0. simpl. rewrite requests_made_app, requests_made_polite. reflexivity. }
  rewrite (range_split (max_retries s) n1) by (unfold n1; lia).
  replace (Z.to_nat (max_retries s) - S n1)%nat with 0%nat by (unfold n1; lia).
  destruct (retry_loop_failures link hdrs errs (requests_made (trace w)) n1
              0%nat [Z.of_nat n1] None s w0 Hbase)
    as (s1 & last1 & Hloop & Hcfg & _).
  { unfold n1. lia. }
  { intros i Hi. apply Hfail. unfold n1 in Hi. lia. }
  cbn [seq map]. rewrite Hloop. clear Hloop.
  set (w1 := with_trace w0 _).
  destruct (attempt_fails s1 link hdrs w1 (errs n1)) as (s2 & Hatt & Hcfg2 & _).
  { unfold w1. simpl. rewrite !requests_made_app, requests_made_polite,
      requests_made_retries. rewrite Nat.add_0_r. apply Hfail. unfold n1. lia. }
  destruct Hcfg as (_ & _ & Htmo & Hmx). destruct Hcfg2 as (_ & _ & _ & Hmx2).
  cbn [retry_loop]. rewrite Hatt.
  replace (Z.of_nat n1 =? max_retries s2 - 1) with true.
  2:{ symmetry. apply Z.eqb_eq. unfold n1. lia. }
  exists s2. eexists. split; [reflexivity|]. split.
  - unfold log, w1, w0, with_trace. simpl. f_equal.
    rewrite Htmo, <- !app_assoc. reflexivity.
  - unfold log, w1, w0. simpl.
    rewrite !requests_made_app, requests_made_polite, requests_made_retries.
    unfold requests_made at 2. simpl. unfold n1. lia.
Qed.

(** C2: when attempts [0 .. k-1] raise and attempt [k < max_retries]
    returns, [getweb] returns its HTML; the history grows by the politeness
    sleep, then request, notice and a sleep of [2^i] for each failed attempt
    [i], then the request that succeeded and nothing after it: [k + 1]
    requests, no more than [max_retries], and the backoff sleeps are
    [2^0, ..., 2^(k-1)] in this order. *)
Theorem getweb_backoff
    (s : self soup) (link : string) (headers : option (list (string * string)))
    (respect_delay : bool) (w : world) (errs : nat -> exn) (k : nat)
    (html : string) :
  Z.of_nat k < max_retries s ->
  (forall i, (i < k)%nat ->
     outcome (server w) (requests_made (trace w) + i) link = inl (errs i)) ->
  outcome (server w) (requests_made (trace w) + k) link = inr html ->
  exists s' w',
    getweb s link headers respect_delay w = (inr html, s', w')
    /\ w' = with_trace w
              (trace w ++ polite_events s w respect_delay ++
               flat_map (retry_events link (effective_headers s headers) (timeout s) errs)
                 (seq 0 k) ++
               [Get link (effective_headers s headers) (timeout s)])
    /\ sleeps (flat_map (retry_events link (effective_headers s headers) (timeout s) errs)
                 (seq 0 k) ++
               [Get link (effective_headers s headers) (timeout s)]) =
       map (fun i => inject_Z (2 ^ Z.of_nat i)) (seq 0 k)
    /\ requests_made (trace w') = (requests_made (trace w) + (k + 1))%nat
    /\ Z.of_nat (k + 1) <= max_retries s
    /\ last_html s' = Some html /\ last_url s' = Some link.
Proof.
  intros Hk Hfail Hok. unfold getweb. rewrite polite_world.
  set (hdrs := effective_headers s headers).
  set (w0 := with_trace w (trace w ++ polite_events s w respect_delay)).
  assert (Hbase : requests_made (trace w0) = (requests_made (trace w) + 0)%nat).
  { unfold w0. simpl. rewrite requests_made_app, requests_made_polite. reflexivity. }
  rewrite (range_split (max_retries s) k) by assumption.
  destruct (retry_loop_failures link hdrs errs (requests_made (trace w)) k
              0%nat (Z.of_nat k :: map Z.of_nat (seq (S k) (Z.to_nat (max_retries s) - S k)))
              None s w0 Hbase)
    as (s1 & last1 & Hloop & Hcfg & _).
  { lia. }
  { intros i Hi. apply Hfail. lia. }
  rewrite Hloop. clear Hloop.
  set (w1 := with_trace w0 _).
  destruct (attempt_succeeds s1 link hdrs w1 html) as (sp & Hparse & Hatt).
  { unfold w1. simpl. rewrite !requests_made_app, requests_made_polite,
      requests_made_retries. rewrite Nat.add_0_r. exact Hok. }
  destruct Hcfg as (_ & _ & Htmo & _).
  cbn [retry_loop]. rewrite Hatt.
  eexists. eexists. split; [reflexivity|]. split; [|split; [|split; [|split]]].
  - unfold log, w1, w0, with_trace. simpl. f_equal.
    rewrite Htmo, <- !app_assoc. reflexivity.
  - unfold sleeps. rewrite flat_map_app. fold (sleeps (flat_map
      (retry_events link hdrs (timeout s) errs) (seq 0 k))).
    rewrite sleeps_retries. simpl. apply app_nil_r.
  - unfold log, w1, w0. simpl.
    rewrite !requests_made_app, requests_made_polite, requests_made_retries.
    unfold requests_made at 2. simpl. lia.
  - lia.
  - split; reflexivity.
Qed.

(** *** What a failed fetch leaves behind *)

(** Whatever an attempt does, it keeps the configuration; when it raises
    it keeps [_soup]; and it stores HTML only after the response has
    passed [raise_for_status]. *)
Lemma attempt_raises_inv (s : self soup) link hdrs w e s1 w1 :
  attempt s link hdrs w = (inl e, s1, w1) ->
  _soup s1 = _soup s
  /\ (s1 = s \/ exists html, s1 = set_fetched s html link /\ BeautifulSoup html = inl e).
Proof.
  unfold attempt. intros Hatt.
  destruct (server w (requests_made (trace w)) link) as [e0|r].
  - inversion Hatt; subst. split; [reflexivity | left; reflexivity].
  - destruct (raise_for_status r) as [e0|[]].
    + inversion Hatt; subst. split; [reflexivity | left; reflexivity].
    + destruct (BeautifulSoup (text r)) as [e0|sp] eqn:Hparse; [|discriminate].
      inversion Hatt; subst. split; [reflexivity|].
      right. exists (text r). split; [reflexivity | assumption].
Qed.

Lemma retry_loop_raises_keeps_soup link hdrs attempts :
  forall last_exc (s : self soup) w e s' w',
    retry_loop attempts last_exc s link hdrs w = (inl e, s', w') ->
    _soup s' = _soup s.
Proof.
  induction attempts as [|a attempts IH]; intros last_exc s w e s' w' Hloop;
    cbn [retry_loop] in Hloop.
  - inversion Hloop; subst. reflexivity.
  - destruct (attempt s link hdrs w) as [[[e1|html] s1] w1] eqn:Hatt; [|discriminate].
    apply attempt_raises_inv in Hatt as [Hsoup _].
    destruct (a =? max_retries s1 - 1).
    + inversion Hloop; subst. assumption.
    + apply IH in Hloop. congruence.
Qed.

(** A call that raises never touches the parsed document. *)
Lemma getweb_raises_keeps_soup (s : self soup) link headers respect_delay w e s' w' :
  getweb s link headers respect_delay w = (inl e, s', w') ->
  _soup s' = _soup s.
Proof. unfold getweb. apply retry_loop_raises_keeps_soup. Qed.

(** When the parser accepts every document, a call that raises leaves
    the whole instance as it was. *)
Lemma retry_loop_raises_keeps_state link hdrs attempts :
  (forall html, exists sp, BeautifulSoup html = inr sp) ->
  forall last_exc (s : self soup) w e s' w',
    retry_loop attempts last_exc s link hdrs w = (inl e, s', w') ->
    s' = s.
Proof.
  intros Htotal.
  induction attempts as [|a attempts IH]; intros last_exc s w e s' w' Hloop;
    cbn [retry_loop] in Hloop.
  - inversion Hloop; subst. reflexivity.
  - destruct (attempt s link hdrs w) as [[[e1|html] s1] w1] eqn:Hatt; [|discriminate].
    apply attempt_raises_inv in Hatt as [_ [->|(h & _ & Hrej)]].
    + destruct (a =? max_retries s - 1).
      * inversion Hloop; subst. reflexivity.
      * eapply IH; eassumption.
    + destruct (Htotal h) as [sp Hsp]. congruence.
Qed.

(** C10 (the code departs from it): with one attempt allowed, a response
    that passes [raise_for_status] but whose body the parser rejects makes
    [getweb] raise the parser's exception, and yet the instance comes back
    with [last_html] and [last_url] set to the rejected body and its URL,
    next to the old [_soup]. *)
Theorem getweb_rejected_markup_overwrites
    (s : self soup) (link : string) (headers : option (list (string * string)))
    (respect_delay : bool) (w : world) (r : response) (e : exn) :
  max_retries s = 1 ->
  server w (requests_made (trace w)) link = inr r ->
  raise_for_status r = inr tt ->
  BeautifulSoup (text r) = inl e ->
  exists s' w',
    getweb s link headers respect_delay w = (inl e, s', w')
    /\ last_html s' = Some (text r)
    /\ last_url s' = Some link
    /\ _soup s' = _soup s.
Proof.
  intros Hmax Hget Hstatus Hparse. unfold getweb. rewrite polite_world, Hmax.
  change (range 1) with [0]. cbn [retry_loop].
  unfold attempt. cbn [server with_trace trace].
  rewrite requests_made_app, requests_made_polite, Nat.add_0_r.
  rewrite Hget, Hstatus, Hparse. cbn [max_retries set_fetched]. rewrite Hmax.
  eexists. eexists. split; [reflexivity|]. repeat split.
Qed.

(** *** Queries before any fetch has succeeded *)

Lemma retry_loop_unloaded link hdrs attempts :
  forall last_exc (s : self soup) w e s' w',
    unloaded s ->
    retry_loop attempts last_exc s link hdrs w = (inl e, s', w') ->
    unloaded s'.
Proof.
  induction attempts as [|a attempts IH]; intros last_exc s w e s' w' Hun Hloop;
    cbn [retry_loop] in Hloop.
  - inversion Hloop; subst. assumption.
  - destruct (attempt s link hdrs w) as [[[e1|html] s1] w1] eqn:Hatt; [|discriminate].
    apply attempt_raises_inv in Hatt as [Hsoup Hs1].
    assert (Hun1 : unloaded s1).
    { destruct Hun as [Hnone Hhtml]. split; [congruence|].
      destruct Hs1 as [->|(h & -> & Hrej)]; [assumption|].
      simpl. exists e1. assumption. }
    destruct (a =? max_retries s1 - 1).
    + inversion Hloop; subst. assumption.
    + eapply IH; eassumption.
Qed.

Lemma never_loaded_unloaded s : never_loaded s -> unloaded s.
Proof.
  induction 1 as [ua dl tmo mx | s link headers rd w e s' w' _ IH Hget].
  - split; [reflexivity | exact I].
  - unfold getweb in Hget. eapply retry_loop_unloaded; eassumption.
Qed.

Lemma unloaded_ensure_soup (s : self soup) :
  unloaded s -> exists e, _ensure_soup s = inl e.
Proof.
  intros [Hnone Hhtml]. unfold _ensure_soup. rewrite Hnone.
  destruct (last_html s) as [html|]; [|eexists; reflexivity].
  destruct Hhtml as [e Hrej]. rewrite Hrej.
  destruct html; eexists; reflexivity.
Qed.

(** Once [_ensure_soup] has returned there is a parsed document. *)
Lemma ensure_soup_gives_soup (s s' : self soup) :
  _ensure_soup s = inr s' -> exists sp, the_soup s' = inr sp.
Proof.
  unfold _ensure_soup, the_soup. destruct (_soup s) as [sp|] eqn:Hsoup.
  - intros [= <-]. rewrite Hsoup. eauto.
  - destruct (last_html s) as [[|c html]|]; try discriminate.
    destruct (BeautifulSoup (String c html)) as [e|sp]; [discriminate|].
    intros [= <-]. simpl. eauto.
Qed.

(** C8: on an instance on which no fetch has succeeded, each of the five
    queries raises, namely the exception [_ensure_soup] raises; on a new
    instance that is the [RuntimeError] "No HTML loaded".  A query takes
    no world and so makes no request: nothing is retried. *)
Theorem queries_raise_before_load (s : self soup) :
  never_loaded s ->
  exists e,
    _ensure_soup s = inl e
    /\ (forall collapse_whitespace, extractalltext s collapse_whitespace = inl e)
    /\ extractallinteractions s = inl e
    /\ (forall el, get_element s el = inl e)
    /\ (forall _class, get_by_class s _class = inl e)
    /\ (forall id, get_by_id s id = inl e)
    /\ (last_html s = None ->
        e = RuntimeError "No HTML loaded. call getweb(url) first.").
Proof.
  intros Hnever. apply never_loaded_unloaded in Hnever.
  destruct (unloaded_ensure_soup s Hnever) as [e He].
  exists e. unfold extractalltext, extractallinteractions, get_element,
    get_by_class, get_by_id. rewrite He. repeat split.
  intros Hnone. unfold _ensure_soup in He. destruct Hnever as [Hsoup _].
  rewrite Hsoup, Hnone in He. inversion He. reflexivity.
Qed.

End Fetch.

(** ** HTML injection *)

Section Injector.

Context {bs4 : Bs4 document node}.

Import injection.

Lemma first_some_none {A B : Type} (f : A -> option B) (l : list A) :
  first_some f l = None <-> Forall (fun x => f x = None) l.
Proof.
  induction l as [|x l IH]; simpl.
  - split; [constructor | reflexivity].
  - destruct (f x) eqn:Hx.
    + split; [discriminate | inversion 1; congruence].
    + rewrite IH. split; [constructor; assumption | inversion 1; assumption].
Qed.

Lemma update_first_none {A : Type} (f : A -> option A) (l : list A) :
  Forall (fun x => f x = None) l -> update_first f l = None.
Proof.
  induction 1 as [|x l Hx _ IH]; simpl; [reflexivity|].
  rewrite Hx, IH. reflexivity.
Qed.

(** Where [soup.find(name)] finds nothing there is nothing to edit. *)
Lemma edit_in_none name edit n :
  find_in name n = None -> edit_in name edit n = None.
Proof.
  induction n as [s | nm at_ cs IH] using node_induction; [reflexivity|].
  simpl. destruct (String.eqb nm name); [discriminate|].
  intros Hnone. apply first_some_none in Hnone.
  rewrite update_first_none; [reflexivity|].
  induction IH as [|c cs Hc _ IHcs]; [constructor|].
  inversion Hnone; subst. constructor; auto.
Qed.

Lemma soup_edit_none (soup : document) name m :
  soup_find soup name = None ->
  soup_edit soup name m = inl (no_attribute (method_name m)).
Proof.
  unfold soup_find, soup_edit. intros Hnone. apply first_some_none in Hnone.
  rewrite update_first_none; [reflexivity|].
  induction Hnone as [|c cs Hc _ IH]; constructor; [|assumption].
  apply edit_in_none, Hc.
Qed.

(** Where [soup.find(name)] finds an element, the edit rewrites the
    contents of that element, and [soup.find(name)] then finds the
    rewritten element. *)
Lemma edit_in_found name edit n nm at_ cs :
  find_in name n = Some (Tag nm at_ cs) ->
  exists n', edit_in name edit n = Some n'
             /\ find_in name n' = Some (Tag nm at_ (edit cs)).
Proof.
  revert nm at_ cs.
  induction n as [s | nm0 at0 cs0 IH] using node_induction;
    intros nm at_ cs; [discriminate|].
  simpl. destruct (String.eqb nm0 name) eqn:Hname.
  - intros [= -> -> ->]. eexists. split; [reflexivity|].
    simpl. rewrite Hname. reflexivity.
  - intros Hfound.
    assert (Hkids : exists cs', update_first (edit_in name edit) cs0 = Some cs'
              /\ first_some (find_in name) cs' = Some (Tag nm at_ (edit cs))).
    { clear Hname. induction IH as [|c cs1 Hc _ IHcs]; [discriminate|].
      simpl in Hfound |- *. destruct (find_in name c) as [hit|] eqn:Hhit.
      - inversion Hfound; subst. destruct (Hc _ _ _ eq_refl) as (c' & -> & Hc').
        eexists. split; [reflexivity|]. simpl. rewrite Hc'. reflexivity.
      - rewrite (edit_in_none _ _ _ Hhit).
        destruct (IHcs Hfound) as (cs' & -> & Hcs').
        eexists. split; [reflexivity|]. simpl. rewrite Hhit. assumption. }
    destruct Hkids as (cs' & -> & Hcs'). eexists. split; [reflexivity|].
    simpl. rewrite Hname. assumption.
Qed.

Lemma soup_edit_found (soup : document) name m nm at_ cs :
  soup_find soup name = Some (Tag nm at_ cs) ->
  exists soup', soup_edit soup name m = inr soup'
                /\ soup_find soup' name = Some (Tag nm at_ (call m cs)).
Proof.
  unfold soup_find, soup_edit.
  induction soup as [|c soup IH]; [discriminate|].
  simpl. destruct (find_in name c) as [hit|] eqn:Hhit.
  - intros [= ->]. destruct (edit_in_found _ (call m) _ _ _ _ Hhit) as (c' & -> & Hc').
    eexists. split; [reflexivity|]. simpl. rewrite Hc'. reflexivity.
  - intros Hfound. rewrite (edit_in_none _ _ _ Hhit).
    destruct (IH Hfound) as (soup' & Hedit & Hfind).
    destruct (update_first (edit_in name (call m)) soup) as [soup1|]; [|discriminate].
    inversion Hedit; subst. eexists. split; [reflexivity|].
    simpl. rewrite Hhit. assumption.
Qed.

(** What [find] returns carries the name asked for. *)
Lemma find_in_name name n nm at_ cs :
  find_in name n = Some (Tag nm at_ cs) -> nm = name.
Proof.
  induction n as [s | nm0 at0 cs0 IH] using node_induction; [discriminate|].
  simpl. destruct (String.eqb nm0 name) eqn:Hname.
  - intros [= -> -> ->]. apply String.eqb_eq, Hname.
  - induction IH as [|c cs1 Hc _ IHcs]; [discriminate|].
    simpl. destruct (find_in name c) as [hit|] eqn:Hhit.
    + intros [= ->]. apply Hc. reflexivity.
    + assumption.
Qed.

Lemma find_in_is_tag name n hit :
  find_in name n = Some hit -> exists at_ cs, hit = Tag name at_ cs.
Proof.
  intros Hfound. destruct hit as [nm at_ cs | s].
  - apply find_in_name in Hfound as ->. eauto.
  - exfalso. revert Hfound.
    induction n as [s0 | nm0 at0 cs0 IH] using node_induction; [discriminate|].
    simpl. destruct (String.eqb nm0 name); [discriminate|].
    induction IH as [|c cs1 Hc _ IHcs]; [discriminate|].
    simpl. destruct (find_in name c) as [hit|] eqn:Hhit; [|assumption].
    intros [= ->]. apply Hc. reflexivity.
Qed.

Lemma soup_find_is_tag (soup : document) name hit :
  soup_find soup name = Some hit -> exists at_ cs, hit = Tag name at_ cs.
Proof.
  unfold soup_find. induction soup as [|c soup IH]; [discriminate|].
  simpl. destruct (find_in name c) as [h|] eqn:Hhit; [|assumption].
  intros [= ->]. eapply find_in_is_tag, Hhit.
Qed.

(** Wrapping a document in a new [body] hides nothing but gives it a body. *)
Lemma soup_find_wrapped (soup : document) wrapper name :
  String.eqb wrapper name = false ->
  soup_find [Tag wrapper [] soup] name = soup_find soup name.
Proof.
  intros Hne. unfold soup_find. simpl. rewrite Hne.
  destruct (first_some (find_in name) soup); reflexivity.
Qed.

Lemma ensured_body (doc : document) :
  soup_find
    match soup_find doc "body" with
    | None => [Tag "body" [] doc]
    | Some _ => doc
    end "body"
  = Some (Tag "body" (fst (body_of doc)) (snd (body_of doc))).
Proof.
  unfold body_of. destruct (soup_find doc "body") as [hit|] eqn:Hbody.
  - destruct (soup_find_is_tag _ _ _ Hbody) as (at_ & cs & ->). assumption.
  - reflexivity.
Qed.

(** X19: placement at the end of the body, which is also what any
    unknown placement means: the call returns the
    serialized document, whose body holds what it held, or the whole
    document if it had to be made, followed by the snippet. *)
Lemma element_body_end html snippet where_ (doc sn : document) :
  BeautifulSoup html = inr doc ->
  BeautifulSoup snippet = inr sn ->
  is_in where_ ["head"; "start"] = false ->
  is_in where_ ["body-start"; "start-body"] = false ->
  exists doc',
    element html snippet where_ = inr (soup_str doc')
    /\ soup_find doc' "body" =
       Some (Tag "body" (fst (body_of doc)) (snd (body_of doc) ++ sn)).
Proof.
  intros Hdoc Hsn Hhead Hstart. unfold element.
  rewrite Hdoc. cbn [bind]. rewrite Hsn. cbn [bind]. rewrite Hhead, Hstart.
  destruct (soup_edit_found _ "body" (append sn) _ _ _ (ensured_body doc))
    as (doc' & -> & Hfind).
  exists doc'. split; [reflexivity | exact Hfind].
Qed.

(** X20: placement at the start of the body: the call returns the
    serialized document, whose body holds the snippet followed by what it
    held, or by the whole document if the body had to be made. *)
Lemma element_body_start html snippet where_ (doc sn : document) :
  BeautifulSoup html = inr doc ->
  BeautifulSoup snippet = inr sn ->
  is_in where_ ["head"; "start"] = false ->
  is_in where_ ["body-start"; "start-body"] = true ->
  exists doc',
    element html snippet where_ = inr (soup_str doc')
    /\ soup_find doc' "body" =
       Some (Tag "body" (fst (body_of doc)) (sn ++ snd (body_of doc))).
Proof.
  intros Hdoc Hsn Hhead Hstart. unfold element.
  rewrite Hdoc. cbn [bind]. rewrite Hsn. cbn [bind]. rewrite Hhead, Hstart.
  destruct (soup_edit_found _ "body" (insert_0 sn) _ _ _ (ensured_body doc))
    as (doc' & -> & Hfind).
  exists doc'. split; [reflexivity | exact Hfind].
Qed.

(** X21: placement in a head that is there: the snippet goes after what
    the head held, also when the body had to be made. *)
Lemma element_head_present html snippet where_ (doc sn : document) at_ cs :
  BeautifulSoup html = inr doc ->
  BeautifulSoup snippet = inr sn ->
  is_in where_ ["head"; "start"] = true ->
  soup_find doc "head" = Some (Tag "head" at_ cs) ->
  exists doc',
    element html snippet where_ = inr (soup_str doc')
    /\ soup_find doc' "head" = Some (Tag "head" at_ (cs ++ sn)).
Proof.
  intros Hdoc Hsn Hhead Hfound. unfold element.
  rewrite Hdoc. cbn [bind]. rewrite Hsn. cbn [bind]. rewrite Hhead.
  set (soup0 := match soup_find doc "body" with
                | None => [Tag "body" [] doc] | Some _ => doc end).
  assert (Hfound0 : soup_find soup0 "head" = Some (Tag "head" at_ cs)).
  { unfold soup0. destruct (soup_find doc "body"); [assumption|].
    rewrite soup_find_wrapped by reflexivity. assumption. }
  rewrite Hfound0. cbn [bind ret].
  destruct (soup_edit_found _ "head" (append sn) _ _ _ Hfound0) as (doc' & -> & Hfind).
  exists doc'. split; [reflexivity | exact Hfind].
Qed.

(** A head made inside the html element is the head found afterwards. *)
Lemma edit_html_makes_head n n' :
  find_in "head" n = None ->
  edit_in "html" (call (insert_0 [new_tag "head"])) n = Some n' ->
  find_in "head" n' = Some (new_tag "head").
Proof.
  revert n'.
  induction n as [s | nm at_ cs IH] using node_induction; intros n'; [discriminate|].
  simpl. destruct (String.eqb nm "head") eqn:Hhead; [discriminate|].
  intros Hnone. destruct (String.eqb nm "html") eqn:Hhtml.
  - intros [= <-]. simpl. rewrite Hhead. reflexivity.
  - destruct (update_first _ cs) as [cs'|] eqn:Hkids; [|discriminate].
    intros [= <-]. simpl. rewrite Hhead.
    clear Hhead Hhtml. revert cs' Hkids.
    induction IH as [|c cs1 Hc _ IHcs]; intros cs' Hkids; [discriminate|].
    simpl in Hnone, Hkids. destruct (find_in "head" c) eqn:Hc0; [discriminate|].
    destruct (edit_in "html" (call (insert_0 [new_tag "head"])) c) as [c'|] eqn:Hedit.
    + inversion Hkids; subst. simpl. rewrite (Hc c' eq_refl eq_refl). reflexivity.
    + destruct (update_first _ cs1) as [cs1'|] eqn:Hrest; [|discriminate].
      inversion Hkids; subst. simpl. rewrite Hc0. apply IHcs; [assumption | reflexivity].
Qed.

Lemma soup_edit_html_makes_head (soup soup' : document) :
  soup_find soup "head" = None ->
  soup_edit soup "html" (insert_0 [new_tag "head"]) = inr soup' ->
  soup_find soup' "head" = Some (new_tag "head").
Proof.
  unfold soup_find, soup_edit. revert soup'.
  induction soup as [|c soup IH]; intros soup'; [discriminate|].
  simpl. destruct (find_in "head" c) eqn:Hc0; [discriminate|].
  intros Hnone.
  destruct (edit_in "html" (call (insert_0 [new_tag "head"])) c) as [c'|] eqn:Hedit.
  - intros [= <-]. simpl. rewrite (edit_html_makes_head _ _ Hc0 Hedit). reflexivity.
  - destruct (update_first _ soup) as [soup1|] eqn:Hrest; [|discriminate].
    intros [= <-]. simpl. rewrite Hc0. apply IH; [assumption | reflexivity].
Qed.

(** X22: placement in a head that is missing, in a document that has an
    html element: the head is made there and receives the snippet. *)
Lemma element_head_synthesized html snippet where_ (doc sn : document) at_ cs :
  BeautifulSoup html = inr doc ->
  BeautifulSoup snippet = inr sn ->
  is_in where_ ["head"; "start"] = true ->
  soup_find doc "head" = None ->
  soup_find doc "html" = Some (Tag "html" at_ cs) ->
  exists doc',
    element html snippet where_ = inr (soup_str doc')
    /\ soup_find doc' "head" = Some (Tag "head" [] sn).
Proof.
  intros Hdoc Hsn Hhead Hnohead Hhtml. unfold element.
  rewrite Hdoc. cbn [bind]. rewrite Hsn. cbn [bind]. rewrite Hhead.
  set (soup0 := match soup_find doc "body" with
                | None => [Tag "body" [] doc] | Some _ => doc end).
  assert (Hnohead0 : soup_find soup0 "head" = None).
  { unfold soup0. destruct (soup_find doc "body"); [assumption|].
    rewrite soup_find_wrapped by reflexivity. assumption. }
  assert (Hhtml0 : soup_find soup0 "html" = Some (Tag "html" at_ cs)).
  { unfold soup0. destruct (soup_find doc "body"); [assumption|].
    rewrite soup_find_wrapped by reflexivity. assumption. }
  rewrite Hnohead0.
  destruct (soup_edit_found _ "html" (insert_0 [new_tag "head"]) _ _ _ Hhtml0)
    as (soup1 & Hedit & _).
  rewrite Hedit. cbn [bind].
  pose proof (soup_edit_html_makes_head _ _ Hnohead0 Hedit) as Hhead1.
  destruct (soup_edit_found _ "head" (append sn) _ _ _ Hhead1) as (doc' & -> & Hfind).
  exists doc'. split; [reflexivity | exact Hfind].
Qed.

(** C7 (the code departs from it): on a document with neither a head nor
    an html element, placement in the head makes [element] raise the
    [AttributeError] of [soup.html.insert] on [None] instead of making
    the wrappers; [css], on the same document, makes the html element and
    the head and returns the document. *)
Theorem element_head_without_html
    (html snippet where_ : string) (doc sn : document) :
  BeautifulSoup html = inr doc ->
  BeautifulSoup snippet = inr sn ->
  soup_find doc "head" = None ->
  soup_find doc "html" = None ->
  is_in where_ ["head"; "start"] = true ->
  element html snippet where_ =
    inl (AttributeError "'NoneType' object has no attribute 'insert'")
  /\ css html snippet where_ =
     inr (soup_str
            [Tag "html" []
               (Tag "head" [] [Tag "style" [] [NavigableString snippet]] :: doc)]).
Proof.
  intros Hdoc Hsn Hnohead Hnohtml Hwhere. split.
  - unfold element. rewrite Hdoc. cbn [bind]. rewrite Hsn. cbn [bind]. rewrite Hwhere.
    set (soup0 := match soup_find doc "body" with
                  | None => [Tag "body" [] doc] | Some _ => doc end).
    assert (Hnohead0 : soup_find soup0 "head" = None).
    { unfold soup0. destruct (soup_find doc "body"); [assumption|].
      rewrite soup_find_wrapped by reflexivity. assumption. }
    assert (Hnohtml0 : soup_find soup0 "html" = None).
    { unfold soup0. destruct (soup_find doc "body"); [assumption|].
      rewrite soup_find_wrapped by reflexivity. assumption. }
    rewrite Hnohead0, (soup_edit_none _ _ _ Hnohtml0). reflexivity.
  - unfold css. rewrite Hdoc. cbn [bind]. rewrite Hnohead, Hnohtml. reflexivity.
Qed.

End Injector.

Section FetchExamples.

Import scraper.
#[local] Existing Instance Mini.bs4.

Lemma getweb_retry_exhaustion_witness :
  exists s' w',
    getweb fresh "http://example.com" None true unlucky =
      (inl (ParserRejectedMarkup "unknown status keyword in marked section"), s', w')
    /\ requests_made (trace w') = 3%nat.
Proof.
  destruct (getweb_retry_exhaustion (bs4 := Mini.bs4)
              fresh "http://example.com" None true unlucky unlucky_errors)
    as (s' & w' & Hget & _ & Hn).
  - simpl. lia.
  - intros [|[|[|i]]] Hi; [reflexivity | reflexivity | reflexivity | simpl in Hi; lia].
  - exists s', w'. split; [exact Hget | exact Hn].
Defined.

Lemma getweb_backoff_witness :
  exists s' w',
    getweb fresh "http://example.com" None false third_time_lucky =
      (inr "<html><body><p>x</p></body></html>", s', w')
    /\ sleeps (trace w') = [1%Q; 2%Q]
    /\ requests_made (trace w') = 3%nat.
Proof.
  destruct (getweb_backoff (bs4 := Mini.bs4)
              fresh "http://example.com" None false third_time_lucky unlucky_errors
              2%nat "<html><body><p>x</p></body></html>")
    as (s' & w' & Hget & Hw & _ & Hn & _).
  - simpl. lia.
  - intros [|[|i]] Hi; [reflexivity | reflexivity | lia].
  - reflexivity.
  - exists s', w'. split; [exact Hget|]. split; [|exact Hn].
    rewrite Hw. reflexivity.
Defined.

Lemma getweb_rejected_markup_overwrites_witness :
  exists s' w',
    getweb loaded "http://example.com/second" None false rejected_page =
      (inl (ParserRejectedMarkup "unknown status keyword in marked section"), s', w')
    /\ last_html s' = Some "<![foo[bar]]>"
    /\ last_url s' = Some "http://example.com/second"
    /\ _soup s' = Some [Tag "p" [] [NavigableString "x"]].
Proof.
  exact (getweb_rejected_markup_overwrites (bs4 := Mini.bs4)
           loaded "http://example.com/second" None false rejected_page
           {| status_code := 200; text := "<![foo[bar]]>" |}
           (ParserRejectedMarkup "unknown status keyword in marked section")
           eq_refl eq_refl eq_refl eq_refl).
Defined.

Lemma queries_raise_before_load_witness :
  get_element fresh "h1" = inl (RuntimeError "No HTML loaded. call getweb(url) first.")
  /\ extractalltext fresh true = inl (RuntimeError "No HTML loaded. call getweb(url) first.").
Proof.
  destruct (queries_raise_before_load (bs4 := Mini.bs4) fresh
              (never_loaded_new None (1 # 5, 1)%Q 10 3))
    as (e & _ & Htext & _ & Hel & _ & _ & He).
  rewrite Hel, Htext, (He eq_refl). split; reflexivity.
Defined.

End FetchExamples.

Section InjectionExamples.

Import injection.
#[local] Existing Instance Mini.bs4.

Lemma element_head_without_html_witness :
  element "<p>x</p>" "<b>s</b>" "head" =
    inl (AttributeError "'NoneType' object has no attribute 'insert'")
  /\ css "<p>x</p>" "b { color: red }" "head" =
     inr "<html><head><style>b { color: red }</style></head><p>x</p></html>".
Proof.
  split.
  - exact (proj1 (element_head_without_html (bs4 := Mini.bs4)
                    "<p>x</p>" "<b>s</b>" "head"
                    [Tag "p" [] [NavigableString "x"]]
                    [Tag "b" [] [NavigableString "s"]]
                    eq_refl eq_refl eq_refl eq_refl eq_refl)).
  - exact (proj2 (element_head_without_html (bs4 := Mini.bs4)
                    "<p>x</p>" "b { color: red }" "head"
                    [Tag "p" [] [NavigableString "x"]]
                    [NavigableString "b { color: red }"]
                    eq_refl eq_refl eq_refl eq_refl eq_refl)).
Defined.

(** The placements that work, on the document of the specification. *)
Example element_body_end_example :
  element "<html><body><p>x</p></body></html>" "<b>s</b>" "body-end" =
  inr "<html><body><p>x</p><b>s</b></body></html>".
Proof. reflexivity. Qed.

Example element_body_start_example :
  element "<html><body><p>x</p></body></html>" "<b>s</b>" "body-start" =
  inr "<html><body><b>s</b><p>x</p></body></html>".
Proof. reflexivity. Qed.

Example element_head_example :
  element "<html><body><p>x</p></body></html>" "<b>s</b>" "head" =
  inr "<html><head><b>s</b></head><body><p>x</p></body></html>".
Proof. reflexivity. Qed.

Example element_makes_body_example :
  element "<p>x</p>" "<b>s</b>" "end" = inr "<body><p>x</p><b>s</b></body>".
Proof. reflexivity. Qed.

End InjectionExamples.


(** * Further properties *)

(** ** StringScanner *)

Section ScannerMore.

Import re.

Lemma maximal_runs_nonempty acc data : maximal_runs acc data <> [].
Proof.
  revert acc. induction data as [|b data IH]; intros acc; simpl; [discriminate|].
  destruct (is_printable b); [apply IH | discriminate].
Qed.

(** Every run the reference cuts is a maximal printable slice of the
    bytes scanned, the bytes in hand included. *)
Lemma maximal_runs_slices data :
  forall acc run,
    forallb is_printable acc = true ->
    In run (maximal_runs acc data) ->
    exists pre post, acc ++ data = pre ++ run ++ post /\ maximal_at pre run post.
Proof.
  induction data as [|b data IH]; intros acc run Hacc Hin; simpl in Hin.
  - destruct Hin as [<-|[]]. exists [], []. rewrite !app_nil_r.
    split; [reflexivity|]. split; [assumption|]. split; left; reflexivity.
  - destruct (is_printable b) eqn:Hb.
    + destruct (IH (acc ++ [b]) run) as (pre & post & Heq & Hmax); [|assumption|].
      { rewrite forallb_app, Hacc. simpl. rewrite Hb. reflexivity. }
      exists pre, post. rewrite <- Heq, <- app_assoc. split; [reflexivity | assumption].
    + destruct Hin as [<-|Hin].
      * exists [], (b :: data). split; [reflexivity|]. split; [assumption|].
        split; [left; reflexivity|]. right. exists b, data. split; [reflexivity | assumption].
      * destruct (IH [] run eq_refl Hin) as (pre & post & Heq & Hrun & Hpre & Hpost).
        exists (acc ++ b :: pre), post. simpl in Heq. rewrite Heq, <- app_assoc. simpl.
        split; [reflexivity|]. split; [assumption|]. split; [|assumption].
        right. destruct Hpre as [->|(pre' & sep & -> & Hsep)].
        -- exists acc, b. split; [reflexivity | assumption].
        -- exists (acc ++ b :: pre'), sep. rewrite <- app_assoc. simpl.
           split; [reflexivity | assumption].
Qed.

(** Whatever the cap, a string in the result is one already there or the
    text of a qualifying run. *)
Lemma scan_loop_sound min_len max_results data :
  forall results printable s,
    In s (finish min_len max_results (scan_loop min_len max_results data results printable)) ->
    In s results
    \/ exists run, In run (maximal_runs printable data)
                   /\ qualifies min_len run = true /\ s = join run.
Proof.
  induction data as [|b data IH]; intros results printable s Hin; simpl in Hin |- *.
  - destruct ((len results <? max_results) && (len printable >=? min_len)) eqn:Hc;
      [|left; assumption].
    apply in_app_or in Hin as [Hin|[<-|[]]]; [left; assumption|].
    right. exists printable. apply andb_prop in Hc as [_ Hq].
    split; [left; reflexivity|]. split; [exact Hq | reflexivity].
  - destruct (is_printable b).
    + apply IH, Hin.
    + destruct (len printable >=? min_len) eqn:Hq.
      * assert (Hnew : forall t, In t (results ++ [join printable]) ->
                  In t results
                  \/ exists run, In run (printable :: maximal_runs [] data)
                                 /\ qualifies min_len run = true /\ t = join run).
        { intros t Ht. apply in_app_or in Ht as [Ht|[<-|[]]]; [left; assumption|].
          right. exists printable. split; [left; reflexivity|].
          split; [exact Hq | reflexivity]. }
        destruct (len (results ++ [join printable]) >=? max_results) eqn:Hfull.
        -- simpl in Hin. replace (len (results ++ [join printable]) <? max_results)
             with false in Hin by lia. simpl in Hin. apply Hnew, Hin.
        -- apply IH in Hin as [Hin|(run & Hrun & Hok & ->)]; [apply Hnew, Hin|].
           right. exists run. split; [right; assumption|]. split; [assumption | reflexivity].
      * apply IH in Hin as [Hin|(run & Hrun & Hok & ->)]; [left; assumption|].
        right. exists run. split; [right; assumption|]. split; [assumption | reflexivity].
Qed.

Lemma length_join run : String.length (join run) = length run.
Proof.
  unfold join, string_of_list_byte.
  rewrite length_string_of_list_ascii. apply length_map.
Qed.

(** X1: whatever [min_len] and [max_results], every string
    [_extract_strings] returns is the text of a slice of the file that
    consists of printable bytes only, has a byte outside the range or an
    end of the file on either side, and is at least [min_len] long. *)
Theorem extract_strings_sound
    (fs : filesystem) (path : string) (data : list byte) (min_len max_results : Z)
    (out : list string) (s : string) :
  open_rb fs path = inr data ->
  _extract_strings fs path min_len max_results = inr out ->
  In s out ->
  exists pre run post,
    data = pre ++ run ++ post
    /\ s = join run
    /\ maximal_at pre run post
    /\ min_len <= Z.of_nat (String.length s).
Proof.
  intros Hopen Hout Hin. unfold _extract_strings in Hout. rewrite Hopen in Hout.
  inversion Hout; subst out. rewrite extract_from_finish in Hin.
  apply scan_loop_sound in Hin as [[]|(run & Hrun & Hq & ->)].
  destruct (maximal_runs_slices data [] run eq_refl Hrun) as (pre & post & Heq & Hmax).
  exists pre, run, post. simpl in Heq. split; [assumption|]. split; [reflexivity|].
  split; [assumption|]. rewrite length_join. unfold qualifies, len in Hq. lia.
Qed.

Lemma extract_strings_sound_witness :
  exists pre run post,
    sample_buffer = pre ++ run ++ post
    /\ "CDEF" = join run
    /\ maximal_at pre run post
    /\ 2 <= Z.of_nat (String.length "CDEF").
Proof.
  apply (extract_strings_sound (Mini.one_file "a.bin" sample_buffer) "a.bin"
           sample_buffer 2 200 ["AB"; "CDEF"] "CDEF" eq_refl eq_refl).
  simpl. tauto.
Defined.

Lemma removelast_cons {A : Type} (x : A) (l : list A) :
  l <> [] -> removelast (x :: l) = x :: removelast l.
Proof. destruct l; [congruence | reflexivity]. Qed.

(** At or above the cap the loop adds at most the first qualifying run
    that a byte outside the range closes, and the final test adds nothing. *)
Lemma scan_loop_capped min_len max_results data :
  forall results printable,
    max_results <= len results ->
    finish min_len max_results (scan_loop min_len max_results data results printable) =
    results ++ take 1 (map join (List.filter (qualifies min_len)
                                   (removelast (maximal_runs printable data)))).
Proof.
  induction data as [|b data IH]; intros results printable Hcap;
    cbn [scan_loop maximal_runs].
  - simpl. replace (len results <? max_results) with false by lia.
    simpl. rewrite app_nil_r. reflexivity.
  - destruct (is_printable b); [apply IH, Hcap|].
    rewrite removelast_cons by apply maximal_runs_nonempty.
    cbn [List.filter]. unfold qualifies at 1.
    destruct (len printable >=? min_len).
    + rewrite len_app_one.
      replace (len results + 1 >=? max_results) with true by lia.
      cbn [finish]. rewrite len_app_one.
      replace (len results + 1 <? max_results) with false by lia.
      reflexivity.
    + rewrite IH by assumption. reflexivity.
Qed.

(** X2: the cap is tested only after a string has been added.  With
    [max_results >= 1] no more than [max_results] strings come back; with
    [max_results <= 0] the result is not empty as the cap would have it,
    but holds the first qualifying run closed by a byte outside the range,
    if there is one, and never the trailing run. *)
Theorem extract_strings_cap
    (fs : filesystem) (path : string) (data : list byte) (min_len max_results : Z) :
  open_rb fs path = inr data ->
  exists out,
    _extract_strings fs path min_len max_results = inr out
    /\ len out <= Z.max 1 max_results
    /\ (max_results <= 0 ->
        out = take 1 (map join (List.filter (qualifies min_len) (terminated_runs data)))).
Proof.
  intros Hopen. unfold _extract_strings. rewrite Hopen. eexists. split; [reflexivity|].
  destruct (Z_le_gt_dec max_results 0) as [Hzero|Hpos].
  - rewrite extract_from_finish, scan_loop_capped by (unfold len; simpl; lia).
    simpl. split; [|reflexivity].
    unfold len. rewrite length_take. lia.
  - rewrite extract_from_reference by lia. split; [|lia].
    unfold reference_scan, len. rewrite length_take. lia.
Qed.

Lemma extract_strings_cap_witness :
  _extract_strings (Mini.one_file "a.bin" sample_buffer) "a.bin" 2 0 = inr ["AB"].
Proof.
  destruct (extract_strings_cap (Mini.one_file "a.bin" sample_buffer) "a.bin"
              sample_buffer 2 0 eq_refl) as (out & -> & _ & Hout).
  rewrite Hout by lia. reflexivity.
Defined.

End ScannerMore.

(** ** DigestComputer, process inspector and [get_source] *)

Section ReMore.

Import re.



Lemma dom_try_field {A : Type} key (lookup : result A) conv (out : gmap string pyval) :
  dom (try_field key lookup conv out) = {[key]} ∪ dom out.
Proof. destruct lookup; simpl; apply dom_insert_L. Qed.

(** X4: the record [get_pid] returns has the same twelve keys whichever
    lookups failed: a failure shows as a [None] value, never as a missing
    key. *)
Theorem get_pid_keys
    (psutil : option psutil.module) (pid : Z) (out : gmap string pyval) :
  get_pid psutil pid = inr out -> dom out = pid_keys.
Proof.
  unfold get_pid. destruct (_safe_psutil_proc psutil pid) as [e|[proc|]];
    try discriminate.
  intros [= <-]. rewrite !dom_try_field, dom_singleton_L.
  unfold pid_keys. set_solver.
Qed.

Lemma get_pid_keys_witness :
  exists out, get_pid (Some Mini.one_process) 1 = inr out /\ dom out = pid_keys.
Proof.
  destruct (get_pid (Some Mini.one_process) 1) as [e|out] eqn:Hget;
    [vm_compute in Hget; discriminate|].
  exists out. split; [reflexivity|].
  exact (get_pid_keys (Some Mini.one_process) 1 out Hget).
Defined.

(** X5: [get_pid] raises in three ways and no other: a [RuntimeError]
    when [psutil] is missing, a [ValueError] naming the pid when
    [psutil.Process] raises [NoSuchProcess], and any other exception of
    [psutil.Process] as it is. *)
Theorem get_pid_errors (psutil : option psutil.module) (pid : Z) (e : exn) :
  get_pid psutil pid = inl e ->
  (psutil = None
   /\ e = RuntimeError "psutil not installed. pip install psutil to use get_pid.")
  \/ (exists ps pid', psutil = Some ps
        /\ psutil.Process_ ps pid = inl (NoSuchProcess pid')
        /\ e = ValueError ("No process with pid=" +:+ str_of_Z pid))
  \/ (exists ps, psutil = Some ps
        /\ psutil.Process_ ps pid = inl e
        /\ forall pid', e <> NoSuchProcess pid').
Proof.
  unfold get_pid, _safe_psutil_proc. destruct psutil as [ps|].
  - destruct (psutil.Process_ ps pid) as [e0|proc] eqn:Hproc; [|discriminate].
    destruct e0; intros [= <-];
      try (right; right; exists ps; split; [reflexivity|]; split;
           [assumption | discriminate]).
    right. left. eauto.
  - intros [= <-]. left. split; reflexivity.
Qed.

Lemma get_pid_errors_witness :
  get_pid (Some Mini.one_process) 7 = inl (ValueError "No process with pid=7").
Proof.
  destruct (get_pid_errors (Some Mini.one_process) 7
              (ValueError "No process with pid=7") eq_refl)
    as [[H _]|[(ps & pid' & _ & _ & _)|(ps & [= <-] & H & _)]].
  - discriminate.
  - reflexivity.
  - discriminate.
Defined.

(** X6: [get_source] refuses a path it cannot use before reading
    anything: the empty string with a [ValueError], a path that does not
    exist with a [FileNotFoundError], although [_extract_strings] alone
    would have answered with an empty list. *)
Theorem get_source_rejects_path
    (str_exn : exn -> string) (psutil : option psutil.module) (fs : filesystem)
    (os : os_module) (path : string) (strings_min_len strings_limit : Z) :
  path = "" \/ path_exists os path = false ->
  get_source str_exn psutil fs os (Path path) strings_min_len strings_limit =
    inl (if String.eqb path ""
         then ValueError "Could not determine executable path for the input."
         else FileNotFoundError ("Path does not exist: " +:+ path)).
Proof.
  intros [->|Hmissing]; [reflexivity|].
  unfold get_source. simpl. destruct path as [|c path]; [reflexivity|].
  rewrite Hmissing. reflexivity.
Qed.

Lemma get_source_rejects_path_witness :
  get_source Mini.str_exn None Mini.no_files (Mini.one_path "/bin/true")
    (Path "/bin/false") 4 200 =
  inl (FileNotFoundError "Path does not exist: /bin/false").
Proof.
  exact (get_source_rejects_path Mini.str_exn None Mini.no_files
           (Mini.one_path "/bin/true") "/bin/false" 4 200 (or_intror eq_refl)).
Defined.





(** X8: given a pid whose process exists, [get_source] is [get_source] on
    the path [proc.exe()] returns. *)
Theorem get_source_of_pid
    (str_exn : exn -> string) (ps : psutil.module) (fs : filesystem)
    (os : os_module) (pid : Z) (proc : psutil.Process) (path : string)
    (strings_min_len strings_limit : Z) :
  psutil.Process_ ps pid = inr proc ->
  psutil.exe proc = inr path ->
  get_source str_exn (Some ps) fs os (Pid pid) strings_min_len strings_limit =
  get_source str_exn (Some ps) fs os (Path path) strings_min_len strings_limit.
Proof.
  intros Hproc Hexe. unfold get_source, resolve_path, _safe_psutil_proc.
  rewrite Hproc. simpl. rewrite Hexe. reflexivity.
Qed.

Lemma get_source_of_pid_witness :
  get_source Mini.str_exn (Some Mini.one_process)
    (Mini.one_file "/sbin/init" sample_buffer) (Mini.one_path "/sbin/init")
    (Pid 1) 2 200 =
  get_source Mini.str_exn (Some Mini.one_process)
    (Mini.one_file "/sbin/init" sample_buffer) (Mini.one_path "/sbin/init")
    (Path "/sbin/init") 2 200.
Proof.
  exact (get_source_of_pid Mini.str_exn Mini.one_process
           (Mini.one_file "/sbin/init" sample_buffer) (Mini.one_path "/sbin/init")
           1 Mini.init_process "/sbin/init" 2 200 eq_refl eq_refl).
Defined.

(** X9: given a pid whose process exists but whose executable cannot be
    told, because [proc.exe()] raises or returns the empty string,
    [get_source] raises a [ValueError] and builds no record. *)
Theorem get_source_pid_without_exe
    (str_exn : exn -> string) (ps : psutil.module) (fs : filesystem)
    (os : os_module) (pid : Z) (proc : psutil.Process)
    (strings_min_len strings_limit : Z) :
  psutil.Process_ ps pid = inr proc ->
  (forall path, psutil.exe proc = inr path -> path = "") ->
  get_source str_exn (Some ps) fs os (Pid pid) strings_min_len strings_limit =
  inl (ValueError "Could not determine executable path for the input.").
Proof.
  intros Hproc Hexe. unfold get_source, resolve_path, _safe_psutil_proc.
  rewrite Hproc. simpl. destruct (psutil.exe proc) as [e|path]; [reflexivity|].
  rewrite (Hexe path eq_refl). reflexivity.
Qed.

Lemma get_source_pid_without_exe_witness :
  get_source Mini.str_exn (Some Mini.one_hidden_process)
    (Mini.one_file "/sbin/init" sample_buffer) (Mini.one_path "/sbin/init")
    (Pid 1) 4 200 =
  inl (ValueError "Could not determine executable path for the input.").
Proof.
  apply (get_source_pid_without_exe Mini.str_exn Mini.one_hidden_process
           (Mini.one_file "/sbin/init" sample_buffer) (Mini.one_path "/sbin/init")
           1 Mini.hidden_process 4 200 eq_refl).
  intros path Hexe. simpl in Hexe. discriminate.
Defined.

End ReMore.

(** ** FetchPolicy and the queries *)

Section FetchMore.

Context {soup tag : Type} {bs4 : Bs4 soup tag}.

Import scraper.

(** One attempt, however it ends. *)
Lemma attempt_shape (s : self soup) link hdrs w :
  exists r s1,
    attempt s link hdrs w = (r, s1, log (Get link hdrs (timeout s)) w)
    /\ same_config s s1
    /\ (forall html, r = inr html -> holds_page s1 link html).
Proof.
  destruct (outcome (server w) (requests_made (trace w)) link) as [e|html] eqn:Hout.
  - destruct (attempt_fails s link hdrs w e Hout) as (s1 & Hatt & Hcfg & _).
    exists (inl e), s1. split; [assumption|]. split; [assumption | discriminate].
  - destruct (attempt_succeeds s link hdrs w html Hout) as (sp & Hparse & Hatt).
    exists (inr html), (set_soup (set_fetched s html link) sp).
    split; [assumption|]. split; [repeat split|].
    intros h [= <-]. split; [reflexivity|]. split; [reflexivity|]. eauto.
Qed.

Lemma backoff_cons a k : backoff a (S k) = inject_Z (2 ^ Z.of_nat a) :: backoff (S a) k.
Proof. reflexivity. Qed.

(** The loop over attempts [a .. a+k-1], the last of which is attempt
    [max_retries - 1], however the attempts end. *)
Lemma retry_loop_shape link hdrs k :
  forall a last_exc (s : self soup) w,
    ((0 < k)%nat -> Z.of_nat (a + k) = max_retries s) ->
    exists r s' evs,
      retry_loop (map Z.of_nat (seq a k)) last_exc s link hdrs w =
        (r, s', with_trace w (trace w ++ evs))
      /\ same_config s s'
      /\ (requests_made evs <= k)%nat
      /\ ((0 < k)%nat -> (1 <= requests_made evs)%nat)
      /\ sleeps evs = backoff a (requests_made evs - 1)
      /\ (forall e, r = inl e -> requests_made evs = k)
      /\ (forall html, r = inr html ->
            holds_page s' link html /\ (1 <= requests_made evs)%nat).
Proof.
  induction k as [|k IH]; intros a last_exc s w Hmax.
  - exists (inl (raise_last last_exc)), s, []. cbn [seq map retry_loop].
    rewrite app_nil_r. destruct w. split; [reflexivity|].
    split; [apply same_config_refl|]. split; [reflexivity|].
    split; [lia|]. split; [reflexivity|]. split; [reflexivity | discriminate].
  - specialize (Hmax ltac:(lia)). cbn [seq map retry_loop].
    destruct (attempt_shape s link hdrs w) as (r1 & s1 & -> & Hcfg & Hpage).
    destruct r1 as [e|html].
    + destruct Hcfg as (Hua & Hdl & Htmo & Hmx).
      destruct (Z.of_nat a =? max_retries s1 - 1) eqn:Hlast.
      * exists (inl e), s1, [Get link hdrs (timeout s)].
        split; [reflexivity|]. split; [repeat split; assumption|].
        unfold requests_made. simpl.
        split; [lia|]. split; [lia|]. split; [reflexivity|].
        split; [intros; lia | discriminate].
      * destruct (IH (S a) (Some e) s1
                    (log (Sleep (inject_Z (2 ^ Z.of_nat a)))
                       (log (Notice (Z.of_nat a + 1) link e (2 ^ Z.of_nat a))
                          (log (Get link hdrs (timeout s)) w))))
          as (r & s' & evs & -> & Hcfg' & Hle & Hpos & Hsl & Herr & Hok);
          [lia|].
        assert (Hk : (0 < k)%nat) by lia. specialize (Hpos Hk).
        exists r, s',
          ([Get link hdrs (timeout s);
            Notice (Z.of_nat a + 1) link e (2 ^ Z.of_nat a);
            Sleep (inject_Z (2 ^ Z.of_nat a))] ++ evs).
        split; [unfold log, with_trace; simpl; rewrite <- !app_assoc; reflexivity|].
        split; [eapply same_config_trans; [|exact Hcfg']; repeat split; assumption|].
        rewrite requests_made_app. unfold requests_made at 1 3 5 7. simpl.
        split; [lia|]. split; [lia|]. split; [|split].
        -- unfold sleeps in *. simpl. rewrite Hsl, Nat.sub_0_r.
           destruct (requests_made evs) as [|m]; [lia|].
           simpl. rewrite Nat.sub_0_r. reflexivity.
        -- intros e' He'. rewrite (Herr e' He'). reflexivity.
        -- intros h Hh. split; [apply (Hok h Hh) | lia].
    + exists (inr html), s1, [Get link hdrs (timeout s)].
      split; [reflexivity|]. split; [assumption|].
      unfold requests_made. simpl.
      split; [lia|]. split; [lia|]. split; [reflexivity|].
      split; [discriminate|]. intros h Hh. split; [apply Hpage, Hh | lia].
Qed.

(** Every call of [getweb], however it ends. *)
Lemma getweb_shape (s : self soup) link headers respect_delay w :
  exists r s' evs,
    getweb s link headers respect_delay w =
      (r, s', with_trace w (trace w ++ polite_events s w respect_delay ++ evs))
    /\ same_config s s'
    /\ Z.of_nat (requests_made evs) <= Z.max 0 (max_retries s)
    /\ (1 <= max_retries s -> (1 <= requests_made evs)%nat)
    /\ sleeps evs = backoff 0 (requests_made evs - 1)
    /\ (forall e, r = inl e -> Z.of_nat (requests_made evs) = Z.max 0 (max_retries s))
    /\ (forall html, r = inr html ->
          holds_page s' link html /\ (1 <= requests_made evs)%nat).
Proof.
  unfold getweb. rewrite polite_world.
  destruct (retry_loop_shape link (effective_headers s headers)
              (Z.to_nat (max_retries s)) 0%nat None s
              (with_trace w (trace w ++ polite_events s w respect_delay)))
    as (r & s' & evs & Hloop & Hcfg & Hle & Hpos & Hsl & Herr & Hok).
  - simpl. lia.
  - exists r, s', evs. unfold range. rewrite Hloop.
    unfold same_config in *. cbn [trace with_trace] in *.
    split; [unfold with_trace; simpl; rewrite <- app_assoc; reflexivity|].
    split; [assumption|]. split; [lia|]. split; [intros; apply Hpos; lia|].
    split; [assumption|]. split; [|assumption].
    intros e He. specialize (Herr e He). lia.
Qed.


Lemma total_backoff a k :
  (total (backoff a k) == inject_Z (2 ^ Z.of_nat (a + k) - 2 ^ Z.of_nat a))%Q.
Proof.
  revert a. induction k as [|k IH]; intros a.
  - rewrite Nat.add_0_r, Z.sub_diag. reflexivity.
  - rewrite backoff_cons. cbn [total fold_right]. fold (total (backoff (S a) k)).
    rewrite IH, <- inject_Z_plus.
    replace (2 ^ Z.of_nat a + (2 ^ Z.of_nat (S a + k) - 2 ^ Z.of_nat (S a)))
      with (2 ^ Z.of_nat (a + S k) - 2 ^ Z.of_nat a); [reflexivity|].
    replace (a + S k)%nat with (S a + k)%nat by lia.
    rewrite (Nat2Z.inj_succ a), Z.pow_succ_r by lia. lia.
Qed.

(** X11: in every call the sleeps after the politeness sleep are 1, 2, 4,
    ... seconds, one after each request but the last; for [n] requests
    they add up to [2^(n-1) - 1] seconds, hence to no more than
    [2^(max_retries-1) - 1]. *)
Theorem getweb_backoff_schedule
    (s : self soup) (link : string) (headers : option (list (string * string)))
    (respect_delay : bool) (w : world) :
  exists r s' evs,
    getweb s link headers respect_delay w =
      (r, s', with_trace w (trace w ++ polite_events s w respect_delay ++ evs))
    /\ sleeps evs = backoff 0 (requests_made evs - 1)
    /\ (total (sleeps evs) == inject_Z (2 ^ Z.of_nat (requests_made evs - 1) - 1))%Q
    /\ (1 <= max_retries s ->
        (total (sleeps evs) <= inject_Z (2 ^ (max_retries s - 1) - 1))%Q).
Proof.
  destruct (getweb_shape s link headers respect_delay w)
    as (r & s' & evs & Hget & _ & Hle & Hpos & Hsl & _ & _).
  exists r, s', evs. split; [assumption|]. split; [assumption|].
  assert (Htotal : (total (sleeps evs) ==
                    inject_Z (2 ^ Z.of_nat (requests_made evs - 1) - 1))%Q).
  { rewrite Hsl, total_backoff. reflexivity. }
  split; [assumption|]. intros Hmax. rewrite Htotal. rewrite <- Zle_Qle.
  specialize (Hpos Hmax).
  assert (2 ^ Z.of_nat (requests_made evs - 1) <= 2 ^ (max_retries s - 1))
    by (apply Z.pow_le_mono_r; lia).
  lia.
Qed.

(** X12: when [getweb] returns, the instance holds the page returned: the
    HTML, its URL and the document the parser made of that HTML. *)
Theorem getweb_success_state
    (s : self soup) (link : string) (headers : option (list (string * string)))
    (respect_delay : bool) (w : world) (html : string) (s' : self soup) (w' : world) :
  getweb s link headers respect_delay w = (inr html, s', w') ->
  last_html s' = Some html
  /\ last_url s' = Some link
  /\ (exists sp, BeautifulSoup html = inr sp /\ _soup s' = Some sp)
  /\ same_config s s'.
Proof.
  intros Hget.
  destruct (getweb_shape s link headers respect_delay w)
    as (r & s1 & evs & Hshape & Hcfg & _ & _ & _ & _ & Hok).
  rewrite Hget in Hshape. inversion Hshape; subst.
  destruct (Hok html eq_refl) as [(Hhtml & Hurl & Hsoup) _].
  repeat split; try assumption; apply Hcfg.
Qed.


(** X14: a call of [getweb] that raises leaves the parsed document and
    the configuration as they were; where the parser accepts every
    document it leaves the whole instance as it was. *)
Theorem getweb_failure_keeps_document
    (s : self soup) (link : string) (headers : option (list (string * string)))
    (respect_delay : bool) (w : world) (e : exn) (s' : self soup) (w' : world) :
  getweb s link headers respect_delay w = (inl e, s', w') ->
  _soup s' = _soup s
  /\ same_config s s'
  /\ ((forall html, exists sp, BeautifulSoup html = inr sp) -> s' = s).
Proof.
  intros Hget. split; [|split].
  - unfold getweb in Hget. eapply retry_loop_raises_keeps_soup, Hget.
  - destruct (getweb_shape s link headers respect_delay w)
      as (r & s1 & evs & Hshape & Hcfg & _).
    rewrite Hget in Hshape. inversion Hshape; subst. assumption.
  - intros Htotal. unfold getweb in Hget.
    eapply retry_loop_raises_keeps_state; eassumption.
Qed.

(** X15: after [getweb] has returned, the three look-ups answer from the
    document parsed from the HTML returned, and leave the instance as it
    is; [get_element] raises what [select] raises on a selector it cannot
    parse. *)
Theorem queries_after_fetch
    (s : self soup) (link : string) (headers : option (list (string * string)))
    (respect_delay : bool) (w : world) (html : string) (s' : self soup) (w' : world) :
  getweb s link headers respect_delay w = (inr html, s', w') ->
  exists sp,
    BeautifulSoup html = inr sp
    /\ (forall el items,
          select sp el = inr items -> get_element s' el = inr (map tag_str items, s'))
    /\ (forall el e, select sp el = inl e -> get_element s' el = inl e)
    /\ (forall _class,
          get_by_class s' _class = inr (map tag_str (find_all sp (ByClass _class)), s'))
    /\ (forall id, get_by_id s' id = inr (option_map tag_str (find sp (ById id)), s')).
Proof.
  intros Hget.
  destruct (getweb_shape s link headers respect_delay w)
    as (r & s1 & evs & Hshape & _ & _ & _ & _ & _ & Hok).
  rewrite Hget in Hshape. inversion Hshape; subst.
  destruct (Hok html eq_refl) as [(_ & _ & sp & Hparse & Hsoup) _].
  exists sp. split; [assumption|].
  unfold get_element, get_by_class, get_by_id, _ensure_soup, the_soup.
  rewrite Hsoup. simpl. rewrite Hsoup. simpl.
  repeat split; intros el x Hsel; rewrite Hsel; reflexivity.
Qed.

(** X16: [_ensure_soup] parses at most once: when it has returned, the
    instance has a document, its HTML, URL and configuration are those it
    had, and a second call changes nothing.  An instance that had a
    document is returned as it is, its HTML not looked at. *)
Theorem ensure_soup_once (s s' : self soup) :
  _ensure_soup s = inr s' ->
  _ensure_soup s' = inr s'
  /\ (exists sp, _soup s' = Some sp)
  /\ last_html s' = last_html s
  /\ last_url s' = last_url s
  /\ same_config s s'
  /\ (forall sp, _soup s = Some sp -> s' = s).
Proof.
  unfold _ensure_soup. destruct (_soup s) as [sp|] eqn:Hsoup.
  - intros [= <-]. rewrite Hsoup. repeat split; eauto.
  - destruct (last_html s) as [[|c html]|] eqn:Hhtml; try discriminate.
    destruct (BeautifulSoup (String c html)) as [e|sp]; [discriminate|].
    intros [= <-]. simpl. repeat split; eauto. discriminate.
Qed.

(** X17: [extractalltext] changes the instance: the script, style and
    noscript elements are removed from the stored document for good, while
    the stored HTML stays, so that a later [get_element] answers from the
    pruned document, or raises what [select] raises there. *)
Theorem extractalltext_prunes_document
    (s : self soup) (sp : soup) (collapse_whitespace : bool) :
  _soup s = Some sp ->
  exists text s',
    extractalltext s collapse_whitespace = inr (text, s')
    /\ _soup s' = Some (decompose_all sp (ByName ["script"; "style"; "noscript"]))
    /\ last_html s' = last_html s
    /\ (forall el items,
          select (decompose_all sp (ByName ["script"; "style"; "noscript"])) el
          = inr items ->
          get_element s' el = inr (map tag_str items, s'))
    /\ (forall el e,
          select (decompose_all sp (ByName ["script"; "style"; "noscript"])) el
          = inl e ->
          get_element s' el = inl e).
Proof.
  intros Hsoup. unfold extractalltext, get_element, _ensure_soup, the_soup.
  rewrite Hsoup. simpl. rewrite Hsoup.
  eexists. eexists. split; [reflexivity|]. simpl.
  repeat split; intros el x Hsel; rewrite Hsel; reflexivity.
Qed.

Lemma length_push_all (typ : tag -> string) (els : list tag) (out : list pyval) :
  length (push_all typ els out) = (length out + length els)%nat.
Proof.
  unfold push_all. revert out. induction els as [|el els IH]; intros out; simpl.
  - lia.
  - rewrite IH. unfold push. rewrite length_app. simpl. lia.
Qed.

(** X18: [extractallinteractions] reports one item for every hit of every
    one of its eight searches, in the order of the searches, and removes
    no duplicate: an element found by several searches is reported once
    for each.  It leaves the instance as it is. *)
Theorem extractallinteractions_count (s : self soup) (sp : soup) :
  _soup s = Some sp ->
  exists out,
    extractallinteractions s = inr (out, s)
    /\ length out =
       (length (find_all sp (ByName ["button"]))
        + length (find_all sp (ByName ["input"]))
        + length (find_all sp (ByName ["select"]))
        + length (find_all sp (ByName ["textarea"]))
        + length (find_all sp (ByNameWithAttr "a" "href"))
        + length (find_all sp (ByName ["form"]))
        + length (find_all sp (ByAttrPresent "onclick"))
        + length (find_all sp (ByAttrValue "role" "button")))%nat.
Proof.
  intros Hsoup. unfold extractallinteractions, _ensure_soup, the_soup.
  rewrite Hsoup. simpl. rewrite Hsoup.
  eexists. split; [reflexivity|].
  rewrite !length_push_all. simpl. lia.
Qed.

End FetchMore.

Section FetchMoreExamples.

Import scraper.
#[local] Existing Instance Mini.bs4.

Lemma getweb_success_state_witness :
  last_html (snd (fst (getweb fresh "http://example.com" None false third_time_lucky)))
  = Some "<html><body><p>x</p></body></html>".
Proof.
  refine (proj1 (getweb_success_state (bs4 := Mini.bs4)
                  fresh "http://example.com" None false third_time_lucky
                  "<html><body><p>x</p></body></html>"
                  (snd (fst (getweb fresh "http://example.com" None false third_time_lucky)))
                  (snd (getweb fresh "http://example.com" None false third_time_lucky))
                  _)).
  vm_compute. reflexivity.
Defined.


Lemma getweb_failure_keeps_document_witness :
  _soup (snd (fst (getweb loaded "http://example.com/second" None false rejected_page)))
  = Some [Tag "p" [] [NavigableString "x"]].
Proof.
  refine (proj1 (getweb_failure_keeps_document (bs4 := Mini.bs4)
                  loaded "http://example.com/second" None false rejected_page
                  (ParserRejectedMarkup "unknown status keyword in marked section")
                  (snd (fst (getweb loaded "http://example.com/second" None false
                               rejected_page)))
                  (snd (getweb loaded "http://example.com/second" None false rejected_page))
                  _)).
  vm_compute. reflexivity.
Defined.

Lemma queries_after_fetch_witness :
  exists sp : document,
    Mini.parse "<html><body><p>x</p></body></html>" = inr sp
    /\ get_element
         (snd (fst (getweb fresh "http://example.com" None false third_time_lucky))) "p"
       = inr (["<p>x</p>"],
              snd (fst (getweb fresh "http://example.com" None false third_time_lucky)))
    /\ get_element
         (snd (fst (getweb fresh "http://example.com" None false third_time_lucky))) ""
       = inl (SelectorSyntaxError "Invalid selector: ").
Proof.
  destruct (queries_after_fetch (bs4 := Mini.bs4)
              fresh "http://example.com" None false third_time_lucky
              "<html><body><p>x</p></body></html>"
              (snd (fst (getweb fresh "http://example.com" None false third_time_lucky)))
              (snd (getweb fresh "http://example.com" None false third_time_lucky)))
    as (sp & Hparse & Hel & Hbad & _); [vm_compute; reflexivity|].
  exists sp. split; [exact Hparse|].
  assert (Hsp : sp = [Tag "html" [] [Tag "body" [] [Tag "p" [] [NavigableString "x"]]]]).
  { vm_compute in Hparse. congruence. }
  subst sp. split.
  - exact (Hel "p" [Tag "p" [] [NavigableString "x"]] eq_refl).
  - exact (Hbad "" (SelectorSyntaxError "Invalid selector: ") eq_refl).
Defined.

Lemma ensure_soup_once_witness :
  _ensure_soup (set_soup (set_fetched fresh "<p>x</p>" "http://example.com")
                  [Tag "p" [] [NavigableString "x"]])
  = inr (set_soup (set_fetched fresh "<p>x</p>" "http://example.com")
           [Tag "p" [] [NavigableString "x"]]).
Proof.
  exact (proj1 (ensure_soup_once (bs4 := Mini.bs4)
                  (set_fetched fresh "<p>x</p>" "http://example.com")
                  (set_soup (set_fetched fresh "<p>x</p>" "http://example.com")
                     [Tag "p" [] [NavigableString "x"]])
                  eq_refl)).
Defined.

Lemma extractalltext_prunes_document_witness :
  exists text s',
    extractalltext loaded_with_script true = inr (text, s')
    /\ get_element loaded_with_script "script"
       = inr (["<script>f()</script>"], loaded_with_script)
    /\ _soup s' = Some [Tag "p" [] [NavigableString "x"]]
    /\ last_html s' = Some "<p>x</p><script>f()</script>"
    /\ get_element s' "script" = inr ([], s').
Proof.
  destruct (extractalltext_prunes_document (bs4 := Mini.bs4)
              loaded_with_script
              [Tag "p" [] [NavigableString "x"]; Tag "script" [] [NavigableString "f()"]]
              true eq_refl)
    as (text & s' & Htext & Hsoup & Hhtml & Hel & _).
  exists text, s'. split; [exact Htext|]. split; [reflexivity|].
  split; [exact Hsoup|]. split; [exact Hhtml|].
  exact (Hel "script" [] eq_refl).
Defined.

Lemma extractallinteractions_count_witness :
  exists out,
    extractallinteractions loaded_with_controls = inr (out, loaded_with_controls)
    /\ length out = 3%nat.
Proof.
  destruct (extractallinteractions_count (bs4 := Mini.bs4)
              loaded_with_controls
              [Tag "button" [("onclick", "f")] [NavigableString "ok"];
               Tag "a" [("href", "x")] [NavigableString "go"]] eq_refl)
    as (out & Hout & Hlen).
  exists out. split; [exact Hout | exact Hlen].
Defined.

End FetchMoreExamples.

(** ** HTML injection *)

Section InjectorMore.

Context {bs4 : Bs4 document node}.

Import injection.

(** X23: [css] succeeds on every document the parser accepts, whatever
    [where] is given: it makes the html element and the head when they are
    missing and returns the serialized document, whose head holds what it
    held followed by one style element with the CSS as its text. *)
Theorem css_appends_style (html snippet where_ : string) (doc : document) :
  BeautifulSoup html = inr doc ->
  exists doc',
    css html snippet where_ = inr (soup_str doc')
    /\ soup_find doc' "head" =
       Some (Tag "head" (fst (head_of doc))
               (snd (head_of doc) ++ [Tag "style" [] [NavigableString snippet]])).
Proof.
  intros Hdoc. unfold css, head_of. rewrite Hdoc. cbn [bind].
  destruct (soup_find doc "head") as [hit|] eqn:Hhead.
  - destruct (soup_find_is_tag _ _ _ Hhead) as (at_ & cs & ->). cbn [bind ret].
    destruct (soup_edit_found _ "head"
                (append [Tag "style" [] [NavigableString snippet]]) _ _ _ Hhead)
      as (doc' & -> & Hfind).
    exists doc'. split; [reflexivity | exact Hfind].
  - set (soup0 := match soup_find doc "html" with
                  | None => [Tag "html" [] doc] | Some _ => doc end).
    assert (Hnohead0 : soup_find soup0 "head" = None).
    { unfold soup0. destruct (soup_find doc "html"); [assumption|].
      rewrite soup_find_wrapped by reflexivity. assumption. }
    assert (Hhtml0 : exists at_ cs, soup_find soup0 "html" = Some (Tag "html" at_ cs)).
    { unfold soup0. destruct (soup_find doc "html") as [hit|] eqn:Hhtml.
      - destruct (soup_find_is_tag _ _ _ Hhtml) as (at_ & cs & ->). eauto.
      - exists [], doc. reflexivity. }
    destruct Hhtml0 as (at_ & cs & Hhtml0).
    destruct (soup_edit_found _ "html" (insert_0 [new_tag "head"]) _ _ _ Hhtml0)
      as (soup1 & Hedit & _).
    rewrite Hedit. cbn [bind].
    pose proof (soup_edit_html_makes_head _ _ Hnohead0 Hedit) as Hhead1.
    destruct (soup_edit_found _ "head"
                (append [Tag "style" [] [NavigableString snippet]]) _ _ _ Hhead1)
      as (doc' & -> & Hfind).
    exists doc'. split; [reflexivity | exact Hfind].
Qed.

End InjectorMore.

Section InjectionMoreExamples.

Import injection.
#[local] Existing Instance Mini.bs4.

Lemma element_body_end_witness :
  exists doc' : document,
    element "<p>x</p>" "<b>s</b>" "anywhere" = inr (Mini.doc_str doc')
    /\ soup_find doc' "body" =
       Some (Tag "body" [] [Tag "p" [] [NavigableString "x"];
                            Tag "b" [] [NavigableString "s"]]).
Proof.
  exact (element_body_end (bs4 := Mini.bs4) "<p>x</p>" "<b>s</b>" "anywhere"
           [Tag "p" [] [NavigableString "x"]] [Tag "b" [] [NavigableString "s"]]
           eq_refl eq_refl eq_refl eq_refl).
Defined.

Lemma element_body_start_witness :
  exists doc' : document,
    element "<html><body><p>x</p></body></html>" "<b>s</b>" "start-body"
      = inr (Mini.doc_str doc')
    /\ soup_find doc' "body" =
       Some (Tag "body" [] [Tag "b" [] [NavigableString "s"];
                            Tag "p" [] [NavigableString "x"]]).
Proof.
  exact (element_body_start (bs4 := Mini.bs4)
           "<html><body><p>x</p></body></html>" "<b>s</b>" "start-body"
           [Tag "html" [] [Tag "body" [] [Tag "p" [] [NavigableString "x"]]]]
           [Tag "b" [] [NavigableString "s"]]
           eq_refl eq_refl eq_refl eq_refl).
Defined.

Lemma element_head_present_witness :
  exists doc' : document,
    element "<head><title>t</title></head><p>x</p>" "<b>s</b>" "start"
      = inr (Mini.doc_str doc')
    /\ soup_find doc' "head" =
       Some (Tag "head" [] [Tag "title" [] [NavigableString "t"];
                            Tag "b" [] [NavigableString "s"]]).
Proof.
  exact (element_head_present (bs4 := Mini.bs4)
           "<head><title>t</title></head><p>x</p>" "<b>s</b>" "start"
           [Tag "head" [] [Tag "title" [] [NavigableString "t"]];
            Tag "p" [] [NavigableString "x"]]
           [Tag "b" [] [NavigableString "s"]]
           [] [Tag "title" [] [NavigableString "t"]]
           eq_refl eq_refl eq_refl eq_refl).
Defined.

Lemma element_head_synthesized_witness :
  exists doc' : document,
    element "<html><body><p>x</p></body></html>" "<b>s</b>" "head"
      = inr (Mini.doc_str doc')
    /\ soup_find doc' "head" = Some (Tag "head" [] [Tag "b" [] [NavigableString "s"]]).
Proof.
  exact (element_head_synthesized (bs4 := Mini.bs4)
           "<html><body><p>x</p></body></html>" "<b>s</b>" "head"
           [Tag "html" [] [Tag "body" [] [Tag "p" [] [NavigableString "x"]]]]
           [Tag "b" [] [NavigableString "s"]]
           [] [Tag "body" [] [Tag "p" [] [NavigableString "x"]]]
           eq_refl eq_refl eq_refl eq_refl eq_refl).
Defined.

Lemma css_appends_style_witness :
  exists doc' : document,
    css "<head><title>t</title></head><p>x</p>" "p { margin: 0 }" "body-end"
      = inr (Mini.doc_str doc')
    /\ soup_find doc' "head" =
       Some (Tag "head" [] [Tag "title" [] [NavigableString "t"];
                            Tag "style" [] [NavigableString "p { margin: 0 }"]]).
Proof.
  exact (css_appends_style (bs4 := Mini.bs4)
           "<head><title>t</title></head><p>x</p>" "p { margin: 0 }" "body-end"
           [Tag "head" [] [Tag "title" [] [NavigableString "t"]];
            Tag "p" [] [NavigableString "x"]]
           eq_refl).
Defined.

End InjectionMoreExamples.
